(** * gosh: sessions with automatic timeouts and key-value storage

    A shallow embedding of package [gosh] (src/gosh.go and the later revision
    of the same file, src/unnamed/part_000) and the properties of its [Room].

    - The two Go maps of a [Room] are finite maps ([gmap]); a channel is the
      natural number that identifies it, [nil_chan] being Go's nil channel.
    - A method of [Room] is a computation in the monad [M]: it threads the
      room and produces a tree of type [run], whose nodes are the places
      where the Go code touches another goroutine (a send on an unbuffered
      channel, a [go] statement), or panics, or returns.
    - [outcome] reads a method sequentially (every send is received);
      [exec] interleaves the methods with the timer goroutines and the
      reaper goroutine under the room's mutex. *)

From Stdlib Require Import ZArith.
From stdpp Require Import gmap strings list.

(** ** Data model *)

(** The three error values of the package; a Go [error] is [option error],
    [None] being [nil]. *)
Inductive error : Set :=
| ErrAlreadyExists
| ErrDoesntExist
| ErrKeyDoesntExist.

(** A channel value is the identity of the channel made by [make]. *)
Abbreviation chan := nat (only parsing).

Definition nil_chan : chan := 0.

(** [type dispatcher struct { lifetime time.Duration }]; a duration is a
    number of nanoseconds. *)
Record dispatcher : Set := mkDispatcher { lifetime : Z }.

(** [type Room struct]. The mutex is not a field here: it is the [holder] of
    the interleaving model below. [next_chan] is the allocator behind
    [make(chan ...)]: the identity that the next [make] returns. *)
Record Room : Type := mkRoom {
  sessions : gmap string (gmap string string);
  watchers : gmap string nat;
  disp : dispatcher;
  killer : chan;
  next_chan : chan
}.

Definition with_sessions (f : gmap string (gmap string string) → gmap string (gmap string string))
    (r : Room) : Room :=
  mkRoom (f (sessions r)) (watchers r) (disp r) (killer r) (next_chan r).

Definition with_watchers (f : gmap string nat → gmap string nat) (r : Room) : Room :=
  mkRoom (sessions r) (f (watchers r)) (disp r) (killer r) (next_chan r).

(** The comma-ok form [_, ok := m[k]]. *)
Definition has {V : Type} (m : gmap string V) (k : string) : bool :=
  bool_decide (is_Some (m !! k)).

(** [r.watchers[iden]]: a missing key reads as the nil channel. *)
Definition watcher (r : Room) (iden : string) : chan :=
  default nil_chan (watchers r !! iden).

(** [r.sessions[iden]]: a missing key reads as the nil map, which reads as
    the empty map. *)
Definition session (r : Room) (iden : string) : gmap string string :=
  default ∅ (sessions r !! iden).

(** [r.sessions[iden][key]]: a missing key reads as the empty string. *)
Definition session_value (r : Room) (iden key : string) : string :=
  default "" (session r iden !! key).

(** ** The monad of the methods *)

(** What a method does, as a tree: it returns with the room as it left it,
    or panics, or is at a send [c <- struct{}{}] on an unbuffered channel
    (the room as it is while the send waits, and what follows once a
    receiver has taken the value), or starts
    [go d.watch(iden, ping, kill)] and goes on. *)
Inductive run (A : Type) : Type :=
| Return (r : Room) (a : A)
| Panic
| Send (r : Room) (c : chan) (k : run A)
| Go (d : dispatcher) (iden : string) (ping kill : chan) (k : run A).

Arguments Return {A} r a.
Arguments Panic {A}.
Arguments Send {A} r c k.
Arguments Go {A} d iden ping kill k.

Definition M (A : Type) : Type := Room → run A.

Fixpoint run_bind {A B : Type} (p : run A) (f : A → M B) : run B :=
  match p with
  | Return r a => f a r
  | Panic => Panic
  | Send r c k => Send r c (run_bind k f)
  | Go d iden ping kill k => Go d iden ping kill (run_bind k f)
  end.

#[global] Instance M_ret : MRet M := λ A a r, Return r a.
#[global] Instance M_bind : MBind M := λ A B f m r, run_bind (m r) f.

Definition gets {A : Type} (f : Room → A) : M A := λ r, Return r (f r).
Definition modify (f : Room → Room) : M unit := λ r, Return (f r) tt.
Definition send (c : chan) : M unit := λ r, Send r c (Return r tt).
Definition go_watch (d : dispatcher) (iden : string) (ping kill : chan) : M unit :=
  λ r, Go d iden ping kill (Return r tt).
Definition panic {A : Type} : M A := λ _, Panic.

(** [make(chan struct{}, 0)]: a channel that no earlier [make] returned. *)
Definition make_chan : M chan :=
  λ r, Return (mkRoom (sessions r) (watchers r) (disp r) (killer r) (S (next_chan r)))
              (next_chan r).

(** The effects of a method, in program order. *)
Inductive effect : Set :=
| ESend (c : chan)
| EGo (d : dispatcher) (iden : string) (ping kill : chan).

Fixpoint effects {A : Type} (p : run A) : list effect :=
  match p with
  | Return _ _ | Panic => []
  | Send _ c k => ESend c :: effects k
  | Go d iden ping kill k => EGo d iden ping kill :: effects k
  end.

(** The sequential reading of a method: every send is received, and the
    method runs to its return. [None] is a panic. *)
Fixpoint outcome {A : Type} (p : run A) : option (Room * A) :=
  match p with
  | Return r a => Some (r, a)
  | Panic => None
  | Send _ _ k => outcome k
  | Go _ _ _ _ k => outcome k
  end.

(** ** The Room and its methods *)

(** [NewRoom]: two empty maps, the dispatcher, and the killer channel, the
    first channel made. The [go room.killWatch()] is the reaper of [init]
    below. *)
Definition NewRoom (live : Z) : Room :=
  mkRoom ∅ ∅ (mkDispatcher live) 1 2.

(** [accessCheck], which only reads the room. *)
Definition accessCheck (r : Room) (iden key : string) : option error :=
  if negb (has (sessions r) iden) then Some ErrDoesntExist
  else if negb (has (watchers r) iden) then Some ErrDoesntExist
  else if bool_decide (key ≠ "") then
    if negb (has (session r iden) key) then Some ErrKeyDoesntExist else None
  else None.

Definition Add (iden : string) : M (option error) :=
  ok ← gets (λ r, has (sessions r) iden);
  if ok : bool then mret (Some ErrAlreadyExists) else
  ok ← gets (λ r, has (watchers r) iden);
  if ok : bool then mret (Some ErrAlreadyExists) else
  modify (with_sessions <[iden := ∅]>) ;;
  c ← make_chan;
  modify (with_watchers <[iden := c]>) ;;
  d ← gets disp;
  ping ← gets (λ r, watcher r iden);
  kill ← gets killer;
  go_watch d iden ping kill ;;
  mret None.

Definition Get (iden key : string) : M (string * option error) :=
  err ← gets (λ r, accessCheck r iden key);
  match err with
  | Some e => mret ("", Some e)
  | None =>
      c ← gets (λ r, watcher r iden);
      send c ;;
      v ← gets (λ r, session_value r iden key);
      mret (v, None)
  end.

(** [r.sessions[iden][key] = value]: the inner map is updated in place; an
    assignment to an entry of the nil map panics. *)
Definition session_store (iden key value : string) : M unit :=
  s ← gets (λ r, sessions r !! iden);
  match s with
  | None => panic
  | Some m => modify (with_sessions <[iden := <[key := value]> m]>)
  end.

(** The [for i, k := range keys] of [GetBatch] over the session [s], from
    index [i] on, with the slice [values] as filled so far. The result is
    the pair that [GetBatch] returns ([None] for the nil slice); the outer
    [None] is the panic of an index out of range. *)
Fixpoint batch_loop (s : gmap string string) (keys : list string) (i : nat)
    (values : list string) : option (option (list string) * option error) :=
  match keys with
  | [] => Some (Some values, None)
  | k :: keys' =>
      if negb (has s k) then Some (None, Some ErrKeyDoesntExist)
      else if decide (i < length values)
      then batch_loop s keys' (S i) (<[i := default "" (s !! k)]> values)
      else None
  end.

(** [GetBatch] (src/unnamed/part_000 only). *)
Definition GetBatch (iden : string) (keys : list string)
    : M (option (list string) * option error) :=
  err ← gets (λ r, accessCheck r iden "");
  match err with
  | Some e => mret (None, Some e)
  | None =>
      c ← gets (λ r, watcher r iden);
      send c ;;
      s ← gets (λ r, session r iden);
      match batch_loop s keys 0 (replicate (length keys) "") with
      | Some res => mret res
      | None => panic
      end
  end.

(** [Set] as in src/gosh.go: the write, then the activity signal. ([Set] is
    a keyword here, hence the names [Set_v1], [Set_v2] and [Set_].) *)
Definition Set_v1 (iden key value : string) : M (option error) :=
  err ← gets (λ r, accessCheck r iden "");
  match err with
  | Some e => mret (Some e)
  | None =>
      session_store iden key value ;;
      c ← gets (λ r, watcher r iden);
      send c ;;
      mret None
  end.

(** [Set] as in src/unnamed/part_000: the activity signal, then the write. *)
Definition Set_v2 (iden key value : string) : M (option error) :=
  err ← gets (λ r, accessCheck r iden "");
  match err with
  | Some e => mret (Some e)
  | None =>
      c ← gets (λ r, watcher r iden);
      send c ;;
      session_store iden key value ;;
      mret None
  end.

Definition Del (iden : string) : M (option error) :=
  err ← gets (λ r, accessCheck r iden "");
  match err with
  | Some e => mret (Some e)
  | None =>
      modify (with_sessions (delete iden)) ;;
      modify (with_watchers (delete iden)) ;;
      mret None
  end.

(** The one case of the [select] of [killWatch], for an identifier received
    on the killer channel: [err := r.Del(iden)], and an [if err != nil]
    whose body is empty. *)
Definition killWatch_case (iden : string) : M unit :=
  err ← Del iden;
  match err with
  | Some _ => mret tt
  | None => mret tt
  end.

(** The loop of [killWatch] over the identifiers that it receives. *)
Fixpoint killWatch (received : list string) : M unit :=
  match received with
  | [] => mret tt
  | iden :: rest => killWatch_case iden ;; killWatch rest
  end.

(** ** The timer goroutine *)

(** [dispatcher.watch] is at its [select] with [left] to wait ([Armed left]), or
    it has returned ([Terminated]). *)
Inductive watch_state : Set :=
| Armed (left_ : Z)
| Terminated.

(** The case of the [select] that is taken. *)
Inductive select_case : Set :=
| RecvPing
| TimeAfter.

#[global] Instance select_case_eq_dec : EqDecision select_case.
Proof. solve_decision. Defined.

Definition watch_start (d : dispatcher) : watch_state := Armed (lifetime d).

(** One turn of the [for] loop of [watch]: the state after it, and what it
    sent on [kill]. *)
Definition watch_step (d : dispatcher) (iden : string) (st : watch_state)
    (ev : select_case) : watch_state * list string :=
  match st with
  | Armed _ =>
      match ev with
      | RecvPing => (Armed (lifetime d), [])
      | TimeAfter => (Terminated, [iden])
      end
  | Terminated => (Terminated, [])
  end.

(** The timer along a sequence of [select] outcomes, with all that it sent
    on [kill]. *)
Fixpoint watch_run (d : dispatcher) (iden : string) (st : watch_state)
    (evs : list select_case) : watch_state * list string :=
  match evs with
  | [] => (st, [])
  | ev :: evs' =>
      let '(st1, out1) := watch_step d iden st ev in
      let '(st2, out2) := watch_run d iden st1 evs' in
      (st2, out1 ++ out2)
  end.

(** [watch], from [left := d.lifetime] on, along the outcomes of its
    [select]: where it is afterwards, and all that it sent on [kill]. *)
Definition watch (d : dispatcher) (iden : string) (evs : list select_case)
    : watch_state * list string :=
  watch_run d iden (watch_start d) evs.

(** ** Calls and reachable rooms *)

(** [Set] of either revision of the file. *)
Inductive revision : Set :=
| GoshGo
| Part000.

Definition Set_ (rev : revision) : string → string → string → M (option error) :=
  match rev with
  | GoshGo => Set_v1
  | Part000 => Set_v2
  end.

(** A call of an exported method. *)
Inductive call : Set :=
| CallAdd (iden : string)
| CallGet (iden key : string)
| CallGetBatch (iden : string) (keys : list string)
| CallSet (rev : revision) (iden key value : string)
| CallDel (iden : string).

(** The call, with the error that it returns. *)
Definition call_err (c : call) : M (option error) :=
  match c with
  | CallAdd iden => Add iden
  | CallGet iden key => res ← Get iden key; mret res.2
  | CallGetBatch iden keys => res ← GetBatch iden keys; mret res.2
  | CallSet rev iden key value => Set_ rev iden key value
  | CallDel iden => Del iden
  end.

Definition call_run (c : call) : M unit :=
  call_err c ;; mret tt.

(** The identifier that a call is about. *)
Definition call_iden (c : call) : string :=
  match c with
  | CallAdd iden | CallGet iden _ | CallGetBatch iden _ | CallSet _ iden _ _
  | CallDel iden => iden
  end.

(** The rooms that a program can see between two calls: the new room, and
    the room after a call of a client or after a delete of the reaper. *)
Inductive reachable : Room → Prop :=
| reach_new live : reachable (NewRoom live)
| reach_call c r r' e :
    reachable r → outcome (call_err c r) = Some (r', e) → reachable r'
| reach_reap iden r r' :
    reachable r → outcome (killWatch_case iden r) = Some (r', tt) → reachable r'.

(** The two maps have the same keys. *)
Definition lockstep (r : Room) : Prop :=
  dom (sessions r) = dom (watchers r).

(** Every channel of the room was made before the next [make]. *)
Definition chans_made (r : Room) : Prop :=
  killer r < next_chan r ∧ ∀ iden c, watchers r !! iden = Some c → c < next_chan r.

(** ** How a call changes the room *)

(** The room after [Add] of a new identifier. *)
Definition added (iden : string) (r : Room) : Room :=
  mkRoom (<[iden := ∅]> (sessions r)) (<[iden := next_chan r]> (watchers r))
    (disp r) (killer r) (S (next_chan r)).

(** The room after [Del] of a session. *)
Definition deleted (iden : string) (r : Room) : Room :=
  with_watchers (delete iden) (with_sessions (delete iden) r).

(** The room after a write of [Set] into the session [m]. *)
Definition stored (iden key value : string) (m : gmap string string) (r : Room) : Room :=
  with_sessions <[iden := <[key := value]> m]> r.

Inductive change (r : Room) : Room → Prop :=
| change_none : change r r
| change_added iden :
    sessions r !! iden = None → watchers r !! iden = None → change r (added iden r)
| change_stored iden key value m :
    sessions r !! iden = Some m → is_Some (watchers r !! iden) →
    change r (stored iden key value m r)
| change_deleted iden :
    is_Some (sessions r !! iden) → is_Some (watchers r !! iden) →
    change r (deleted iden r).

(** ** Goroutines under the mutex *)

(** A timer goroutine: the arguments of its [watch], where it is in its
    loop, and what it still has to send on [kill] (it is blocked at
    [kill <- iden] while this is not empty). *)
Record timer : Set := mkTimer {
  t_disp : dispatcher;
  t_iden : string;
  t_ping : chan;
  t_kill : chan;
  t_state : watch_state;
  t_pending : list string
}.

(** The timer is at its [select], where it can receive a ping. *)
Definition at_select (t : timer) : bool :=
  match t_state t, t_pending t with
  | Armed _, [] => true
  | _, _ => false
  end.

(** The timer takes a case of its [select]. *)
Definition timer_select (t : timer) (ev : select_case) : timer :=
  let '(st, out) := watch_step (t_disp t) (t_iden t) (t_state t) ev in
  mkTimer (t_disp t) (t_iden t) (t_ping t) (t_kill t) st (t_pending t ++ out).

Definition timer_sent (t : timer) (rest : list string) : timer :=
  mkTimer (t_disp t) (t_iden t) (t_ping t) (t_kill t) (t_state t) rest.

Inductive goroutine : Set :=
| Client
| Reaper.

(** The program: the room as the last [Unlock] left it; who holds the mutex
    and what is left of its method; the timers; and the identifier that the
    reaper has received and not yet deleted ([None]: it is at the receive
    of its [select]). *)
Record sys : Type := mkSys {
  room : Room;
  holder : option (goroutine * run unit);
  timers : list timer;
  reaper : option string
}.

(** After [NewRoom]: no session, the mutex free, the reaper started. *)
Definition init (live : Z) : sys :=
  mkSys (NewRoom live) None [] None.

Inductive action : Set :=
| ALock (c : call)      (* a client calls a method, whose [Lock] succeeds *)
| AReap                 (* the [Lock] of the reaper's [Del] succeeds *)
| AGo                   (* the holder starts a timer *)
| ADeliver (i : nat)    (* timer [i] receives the ping that the holder sends *)
| AUnlock               (* the holder returns, its deferred [Unlock] runs *)
| AFire (i : nat)       (* the [time.After] case of timer [i] is taken *)
| AKill (i : nat).      (* the reaper receives what timer [i] sends on [kill] *)

(** One move of one goroutine, [None] when it cannot move now. A method
    runs between its [r.mutex.Lock()] ([ALock], [AReap]) and its deferred
    [r.mutex.Unlock()] ([AUnlock]); a send on an unbuffered channel moves
    together with its receive ([ADeliver], [AKill]). *)
Definition exec (a : action) (s : sys) : option sys :=
  match a with
  | ALock c =>
      match holder s with
      | None => Some (mkSys (room s) (Some (Client, call_run c (room s))) (timers s) (reaper s))
      | Some _ => None
      end
  | AReap =>
      match holder s, reaper s with
      | None, Some iden =>
          Some (mkSys (room s) (Some (Reaper, killWatch_case iden (room s))) (timers s) (reaper s))
      | _, _ => None
      end
  | AGo =>
      match holder s with
      | Some (w, Go d iden ping kill k) =>
          Some (mkSys (room s) (Some (w, k))
                  (timers s ++ [mkTimer d iden ping kill (watch_start d) []]) (reaper s))
      | _ => None
      end
  | ADeliver i =>
      match holder s, timers s !! i with
      | Some (w, Send _ c k), Some t =>
          if at_select t && bool_decide (t_ping t = c)
          then Some (mkSys (room s) (Some (w, k)) (<[i := timer_select t RecvPing]> (timers s))
                       (reaper s))
          else None
      | _, _ => None
      end
  | AUnlock =>
      match holder s with
      | Some (w, Return r _) =>
          Some (mkSys r None (timers s) (match w with Reaper => None | Client => reaper s end))
      | _ => None
      end
  | AFire i =>
      match timers s !! i with
      | Some t =>
          if at_select t
          then Some (mkSys (room s) (holder s) (<[i := timer_select t TimeAfter]> (timers s))
                       (reaper s))
          else None
      | None => None
      end
  | AKill i =>
      match timers s !! i, reaper s with
      | Some t, None =>
          match t_pending t with
          | iden :: rest =>
              if bool_decide (t_kill t = killer (room s))
              then Some (mkSys (room s) (holder s) (<[i := timer_sent t rest]> (timers s))
                           (Some iden))
              else None
          | [] => None
          end
      | _, _ => None
      end
  end.

(** A schedule, from the first action on. *)
Fixpoint exec_all (sch : list action) (s : sys) : option sys :=
  match sch with
  | [] => Some s
  | a :: sch' =>
      match exec a s with
      | Some s' => exec_all sch' s'
      | None => None
      end
  end.

(** No goroutine can move. *)
Definition deadlocked (s : sys) : Prop :=
  ∀ a, exec a s = None.

(** A client holds the mutex at its send on the channel of the session
    [iden], which exists; the reaper has the identifier and has not yet
    deleted the session; and no goroutine can move. *)
Definition stuck_at_send (iden : string) (s : sys) : Prop :=
  ∃ r c k, holder s = Some (Client, Send r c k) ∧
           watchers r !! iden = Some c ∧
           is_Some (sessions r !! iden) ∧
           reaper s = Some iden ∧
           deadlocked s.

(** The room between two calls is a reachable one, and the method of the
    holder of the mutex, if its sends are received, returns in a reachable
    room. *)
Definition sys_ok (s : sys) : Prop :=
  reachable (room s) ∧
  match holder s with
  | None => True
  | Some (_, p) => ∃ r', outcome p = Some (r', tt) ∧ reachable r'
  end.

(** The timer as a ping leaves it, and as its elapsed wait and the receive
    of the reaper leave it. *)
Definition rearmed (t : timer) : timer :=
  mkTimer (t_disp t) (t_iden t) (t_ping t) (t_kill t) (Armed (lifetime (t_disp t))) [].

Definition returned (t : timer) : timer :=
  mkTimer (t_disp t) (t_iden t) (t_ping t) (t_kill t) Terminated [].

(** The room, a timer and the program of [NewRoom live]: the dispatcher and
    the killer channel are those of [NewRoom live]; a timer has them as the
    arguments of its [watch], and waits the lifetime [live] when it is
    armed; the method of the holder starts such timers only and returns in
    such a room. *)
Definition room_of (live : Z) (r : Room) : Prop :=
  disp r = mkDispatcher live ∧ killer r = killer (NewRoom live).

Definition timer_of (live : Z) (t : timer) : Prop :=
  t_disp t = mkDispatcher live ∧ t_kill t = killer (NewRoom live) ∧
  ∀ l, t_state t = Armed l → l = live.

Definition sys_of (live : Z) (s : sys) : Prop :=
  room_of live (room s) ∧ Forall (timer_of live) (timers s) ∧
  match holder s with
  | None => True
  | Some (_, p) =>
      (∀ d iden ping kill, EGo d iden ping kill ∈ effects p →
         d = mkDispatcher live ∧ kill = killer (NewRoom live)) ∧
      ∀ r' a, outcome p = Some (r', a) → room_of live r'
  end.

(** The timers that a method has still to start, and the timers that run,
    each as the identifier and the ping channel of its [watch]. *)
Fixpoint go_list {A : Type} (p : run A) : list (string * nat) :=
  match p with
  | Return _ _ | Panic => []
  | Send _ _ k => go_list k
  | Go _ iden ping _ k => (iden, ping) :: go_list k
  end.

Definition timer_ids (ts : list timer) : list (string * nat) :=
  (λ t, (t_iden t, t_ping t)) <$> ts.

(** The timers [all] and the room [r]: no two timers have the same channel,
    every channel of a timer was made before the next [make], and every
    channel of the room is the channel of a timer of its identifier. *)
Definition chans_timed (r : Room) (all : list (string * nat)) : Prop :=
  NoDup all.*2 ∧
  (∀ iden c, (iden, c) ∈ all → c < next_chan r) ∧
  (∀ iden c, watchers r !! iden = Some c → (iden, c) ∈ all).

(** The same of the program: of the room and the timers when the mutex is
    free; of the room in which the holder returns, and the timers with
    those that the holder has still to start, otherwise. *)
Definition sys_timed (s : sys) : Prop :=
  match holder s with
  | None => chans_timed (room s) (timer_ids (timers s))
  | Some (_, p) =>
      ∃ r' a, outcome p = Some (r', a) ∧
              chans_timed r' (timer_ids (timers s) ++ go_list p)
  end.

(** ** Equations of the methods *)

Lemma has_true {V : Type} (m : gmap string V) (k : string) :
  has m k = true ↔ is_Some (m !! k).
Proof. unfold has. apply bool_decide_eq_true. Qed.

Lemma has_false {V : Type} (m : gmap string V) (k : string) :
  has m k = false ↔ m !! k = None.
Proof. unfold has. rewrite bool_decide_eq_false, eq_None_not_Some. done. Qed.

Lemma has_Some {V : Type} (m : gmap string V) (k : string) (v : V) :
  m !! k = Some v → has m k = true.
Proof. intros H. apply has_true. eauto. Qed.

Lemma Add_eq (iden : string) (r : Room) :
  Add iden r =
    if has (sessions r) iden then Return r (Some ErrAlreadyExists)
    else if has (watchers r) iden then Return r (Some ErrAlreadyExists)
    else Go (disp r) iden (next_chan r) (killer r)
           (Return (mkRoom (<[iden := ∅]> (sessions r)) (<[iden := next_chan r]> (watchers r))
                      (disp r) (killer r) (S (next_chan r))) None).
Proof.
  unfold Add, mbind, M_bind, gets. cbn.
  destruct (has (sessions r) iden); [done |]. cbn.
  destruct (has (watchers r) iden); [done |]. cbn.
  unfold watcher, with_watchers, with_sessions. cbn.
  by rewrite lookup_insert_eq.
Qed.

Lemma Get_eq (iden key : string) (r : Room) :
  Get iden key r =
    match accessCheck r iden key with
    | Some e => Return r ("", Some e)
    | None => Send r (watcher r iden) (Return r (session_value r iden key, None))
    end.
Proof. unfold Get, mbind, M_bind, gets. cbn. by destruct (accessCheck r iden key). Qed.

Lemma GetBatch_eq (iden : string) (keys : list string) (r : Room) :
  GetBatch iden keys r =
    match accessCheck r iden "" with
    | Some e => Return r (None, Some e)
    | None =>
        Send r (watcher r iden)
          match batch_loop (session r iden) keys 0 (replicate (length keys) "") with
          | Some res => Return r res
          | None => Panic
          end
    end.
Proof.
  unfold GetBatch, mbind, M_bind, gets. cbn.
  destruct (accessCheck r iden ""); [done |]. cbn.
  by destruct (batch_loop _ _ _ _).
Qed.

Lemma Set_v1_eq (iden key value : string) (r : Room) :
  Set_v1 iden key value r =
    match accessCheck r iden "" with
    | Some e => Return r (Some e)
    | None =>
        match sessions r !! iden with
        | None => Panic
        | Some m =>
            let r' := with_sessions <[iden := <[key := value]> m]> r in
            Send r' (watcher r' iden) (Return r' None)
        end
    end.
Proof.
  unfold Set_v1, session_store, mbind, M_bind, gets. cbn.
  destruct (accessCheck r iden ""); [done |]. cbn.
  by destruct (sessions r !! iden).
Qed.

Lemma Set_v2_eq (iden key value : string) (r : Room) :
  Set_v2 iden key value r =
    match accessCheck r iden "" with
    | Some e => Return r (Some e)
    | None =>
        Send r (watcher r iden)
          match sessions r !! iden with
          | None => Panic
          | Some m => Return (with_sessions <[iden := <[key := value]> m]> r) None
          end
    end.
Proof.
  unfold Set_v2, session_store, mbind, M_bind, gets. cbn.
  destruct (accessCheck r iden ""); [done |]. cbn.
  by destruct (sessions r !! iden).
Qed.

Lemma Del_eq (iden : string) (r : Room) :
  Del iden r =
    match accessCheck r iden "" with
    | Some e => Return r (Some e)
    | None => Return (with_watchers (delete iden) (with_sessions (delete iden) r)) None
    end.
Proof. unfold Del, mbind, M_bind, gets. cbn. by destruct (accessCheck r iden ""). Qed.

Lemma killWatch_case_eq (iden : string) (r : Room) :
  killWatch_case iden r =
    match accessCheck r iden "" with
    | Some _ => Return r tt
    | None => Return (with_watchers (delete iden) (with_sessions (delete iden) r)) tt
    end.
Proof.
  unfold killWatch_case, mbind, M_bind. rewrite Del_eq.
  by destruct (accessCheck r iden "").
Qed.

(** The equations above, as a rewriting base, and the case analysis of a
    call that brings each method to its equation. *)
Create Rewrite HintDb methods.
#[global] Hint Rewrite Add_eq Get_eq GetBatch_eq Set_v1_eq Set_v2_eq Del_eq
  killWatch_case_eq : methods.

Ltac call_cases c :=
  destruct c as [?iden | ?iden ?key | ?iden ?keys | [] ?iden ?key ?value | ?iden];
  cbn [call_err Set_]; unfold mbind, M_bind; autorewrite with methods.

(** ** What [accessCheck] answers *)

Lemma accessCheck_no_session (r : Room) (iden key : string) :
  sessions r !! iden = None → accessCheck r iden key = Some ErrDoesntExist.
Proof. intros H. unfold accessCheck. apply has_false in H. by rewrite H. Qed.

Lemma accessCheck_no_watcher (r : Room) (iden key : string) :
  watchers r !! iden = None → accessCheck r iden key = Some ErrDoesntExist.
Proof.
  intros H. unfold accessCheck. apply has_false in H. rewrite H.
  by destruct (has (sessions r) iden).
Qed.

Lemma accessCheck_empty_key (r : Room) (iden : string) :
  is_Some (sessions r !! iden) → is_Some (watchers r !! iden) →
  accessCheck r iden "" = None.
Proof.
  intros Hs Hw. unfold accessCheck.
  apply has_true in Hs, Hw. by rewrite Hs, Hw.
Qed.

Lemma accessCheck_key (r : Room) (iden key : string) (s : gmap string string) :
  sessions r !! iden = Some s → is_Some (watchers r !! iden) → key ≠ "" →
  accessCheck r iden key =
    match s !! key with Some _ => None | None => Some ErrKeyDoesntExist end.
Proof.
  intros Hs Hw Hk. unfold accessCheck, session.
  rewrite (has_Some _ _ _ Hs). apply has_true in Hw. rewrite Hw. cbn.
  rewrite bool_decide_eq_true_2 by done. rewrite Hs. cbn.
  destruct (s !! key) eqn:E.
  - by rewrite (has_Some _ _ _ E).
  - apply has_false in E. by rewrite E.
Qed.

Lemma accessCheck_empty_key_err (r : Room) (iden : string) (e : error) :
  accessCheck r iden "" = Some e →
  e = ErrDoesntExist ∧ (sessions r !! iden = None ∨ watchers r !! iden = None).
Proof.
  unfold accessCheck. intros H.
  destruct (has (sessions r) iden) eqn:Hs; cbn in H.
  - destruct (has (watchers r) iden) eqn:Hw; cbn in H.
    + rewrite bool_decide_eq_false_2 in H by (intros Hne; by apply Hne). done.
    + apply has_false in Hw. split; [congruence | by right].
  - apply has_false in Hs. split; [congruence | by left].
Qed.

Lemma accessCheck_nil (r : Room) (iden key : string) :
  accessCheck r iden key = None →
  is_Some (sessions r !! iden) ∧ is_Some (watchers r !! iden).
Proof.
  intros H. split.
  - destruct (sessions r !! iden) eqn:E; [eauto |].
    by rewrite (accessCheck_no_session r iden key E) in H.
  - destruct (watchers r !! iden) eqn:E; [eauto |].
    by rewrite (accessCheck_no_watcher r iden key E) in H.
Qed.

Lemma lockstep_lookup (r : Room) (iden : string) :
  lockstep r → is_Some (sessions r !! iden) ↔ is_Some (watchers r !! iden).
Proof. unfold lockstep. intros H. by rewrite <- !elem_of_dom, H. Qed.

(** ** The loop of [GetBatch] *)

(** With every key present and room left in [values], the loop writes the
    values read at [i], [i+1], ... and returns the slice. *)
Lemma batch_loop_present (s : gmap string string) (keys : list string) :
  ∀ (i : nat) (values : list string),
    i + length keys ≤ length values →
    Forall (λ k, is_Some (s !! k)) keys →
    ∃ vs, Forall2 (λ k v, s !! k = Some v) keys vs ∧
          batch_loop s keys i values =
            Some (Some (take i values ++ vs ++ drop (i + length keys) values), None).
Proof.
  induction keys as [| k keys IH]; intros i values Hlen Hall.
  - exists []. split; [constructor |]. cbn.
    by rewrite Nat.add_0_r, take_drop.
  - apply Forall_cons in Hall as [[v Hv] Hall]. cbn in Hlen.
    destruct (IH (S i) (<[i := v]> values)) as (vs & Hvs & Heq); [| done |].
    { rewrite length_insert. lia. }
    exists (v :: vs). split; [by constructor |].
    cbn. rewrite (has_Some _ _ _ Hv). cbn.
    rewrite decide_True by lia. rewrite Hv. cbn. rewrite Heq.
    rewrite (take_S_r _ _ v) by (apply list_lookup_insert_eq; lia).
    rewrite take_insert_ge by lia.
    rewrite drop_insert_lt by lia.
    rewrite <- app_assoc. cbn.
    by replace (i + S (length keys)) with (S (i + length keys)) by lia.
Qed.

(** With a key absent, the loop stops there with the nil slice. *)
Lemma batch_loop_absent (s : gmap string string) (keys : list string) :
  ∀ (i : nat) (values : list string),
    i + length keys ≤ length values →
    Exists (λ k, s !! k = None) keys →
    batch_loop s keys i values = Some (None, Some ErrKeyDoesntExist).
Proof.
  induction keys as [| k keys IH]; intros i values Hlen Hex.
  - by apply Exists_nil in Hex.
  - cbn in *. destruct (s !! k) as [v |] eqn:Hk.
    + rewrite (has_Some _ _ _ Hk). cbn. rewrite decide_True by lia.
      apply IH; [rewrite length_insert; lia |].
      apply Exists_cons in Hex as [Hex | Hex]; [congruence | done].
    + apply has_false in Hk. by rewrite Hk.
Qed.

(** ** Results of the methods, read sequentially *)

Lemma Get_no_session (r : Room) (iden key : string) :
  sessions r !! iden = None →
  outcome (Get iden key r) = Some (r, ("", Some ErrDoesntExist)).
Proof. intros H. by rewrite Get_eq, accessCheck_no_session. Qed.

Lemma Get_present (r : Room) (iden key : string) (s : gmap string string) (v : string) :
  sessions r !! iden = Some s → is_Some (watchers r !! iden) → s !! key = Some v →
  outcome (Get iden key r) = Some (r, (v, None)).
Proof.
  intros Hs Hw Hv. rewrite Get_eq.
  destruct (decide (key = "")) as [-> | Hk].
  - rewrite accessCheck_empty_key by eauto. cbn.
    unfold session_value, session. by rewrite Hs; cbn; rewrite Hv.
  - rewrite (accessCheck_key _ _ _ s) by done. rewrite Hv. cbn.
    unfold session_value, session. by rewrite Hs; cbn; rewrite Hv.
Qed.

Lemma Get_absent (r : Room) (iden key : string) (s : gmap string string) :
  sessions r !! iden = Some s → is_Some (watchers r !! iden) → key ≠ "" →
  s !! key = None →
  outcome (Get iden key r) = Some (r, ("", Some ErrKeyDoesntExist)).
Proof.
  intros Hs Hw Hk Hv. by rewrite Get_eq, (accessCheck_key _ _ _ s), Hv.
Qed.

Lemma Get_empty_key (r : Room) (iden : string) (s : gmap string string) :
  sessions r !! iden = Some s → is_Some (watchers r !! iden) →
  outcome (Get iden "" r) = Some (r, (default "" (s !! ""), None)).
Proof.
  intros Hs Hw. rewrite Get_eq, accessCheck_empty_key by eauto. cbn.
  unfold session_value, session. by rewrite Hs.
Qed.

Lemma Set_outcome (rev : revision) (r : Room) (iden key value : string)
    (s : gmap string string) :
  sessions r !! iden = Some s → is_Some (watchers r !! iden) →
  outcome (Set_ rev iden key value r) =
    Some (with_sessions <[iden := <[key := value]> s]> r, None).
Proof.
  intros Hs Hw. destruct rev; cbn.
  - rewrite Set_v1_eq, accessCheck_empty_key by eauto. by rewrite Hs.
  - rewrite Set_v2_eq, accessCheck_empty_key by eauto. cbn. by rewrite Hs.
Qed.

Lemma Set_no_session (rev : revision) (r : Room) (iden key value : string) :
  sessions r !! iden = None →
  outcome (Set_ rev iden key value r) = Some (r, Some ErrDoesntExist).
Proof.
  intros H. destruct rev; cbn.
  - by rewrite Set_v1_eq, accessCheck_no_session.
  - by rewrite Set_v2_eq, accessCheck_no_session.
Qed.

Lemma Del_no_session (r : Room) (iden : string) :
  sessions r !! iden = None → outcome (Del iden r) = Some (r, Some ErrDoesntExist).
Proof. intros H. by rewrite Del_eq, accessCheck_no_session. Qed.

(** Both revisions of [Set] return the same and leave the same room. *)
Lemma Set_revisions (r : Room) (iden key value : string) :
  outcome (Set_v1 iden key value r) = outcome (Set_v2 iden key value r).
Proof.
  rewrite Set_v1_eq, Set_v2_eq.
  destruct (accessCheck r iden ""); [done |]. cbn.
  by destruct (sessions r !! iden).
Qed.

(** A call that returns an error returns in the room in which it began. *)
Lemma call_err_same_room (c : call) (r r' : Room) (e : error) :
  outcome (call_err c r) = Some (r', Some e) → r' = r.
Proof.
  call_cases c;
    repeat match goal with
      | |- context [accessCheck ?r ?i ?k] => destruct (accessCheck r i k)
      | |- context [has ?m ?i] => destruct (has m i)
      | |- context [batch_loop ?s ?ks ?i ?vs] => destruct (batch_loop s ks i vs)
      | |- context [sessions ?r !! ?i] => destruct (sessions r !! i)
      end; cbn; congruence.
Qed.

(** ** Every call is one of the changes *)

Lemma Del_change (iden : string) (r r' : Room) (e : option error) :
  outcome (Del iden r) = Some (r', e) → change r r'.
Proof.
  rewrite Del_eq. destruct (accessCheck r iden "") eqn:E; cbn; intros [= <- <-].
  - constructor.
  - apply accessCheck_nil in E as [Hs Hw]. by apply change_deleted.
Qed.

Lemma call_change (c : call) (r r' : Room) (e : option error) :
  outcome (call_err c r) = Some (r', e) → change r r'.
Proof.
  call_cases c.
  - destruct (has (sessions r) iden) eqn:Hs; [cbn; intros [= <- <-]; constructor |].
    destruct (has (watchers r) iden) eqn:Hw; cbn; intros [= <- <-]; [constructor |].
    apply has_false in Hs, Hw. by apply change_added.
  - destruct (accessCheck r iden key); cbn; intros [= <- <-]; constructor.
  - destruct (accessCheck r iden ""); cbn; [intros [= <- <-]; constructor |].
    destruct (batch_loop _ _ _ _) as [res |]; cbn; [| done].
    intros [= <- <-]; constructor.
  - destruct (accessCheck r iden "") eqn:E; cbn; [intros [= <- <-]; constructor |].
    apply accessCheck_nil in E as [[m Hs] Hw]. rewrite Hs. cbn.
    intros [= <- <-]. by apply change_stored.
  - destruct (accessCheck r iden "") eqn:E; cbn; [intros [= <- <-]; constructor |].
    apply accessCheck_nil in E as [[m Hs] Hw]. rewrite Hs. cbn.
    intros [= <- <-]. by apply change_stored.
  - destruct (accessCheck r iden "") eqn:E; cbn; intros [= <- <-]; [constructor |].
    apply accessCheck_nil in E as [Hs Hw]. by apply change_deleted.
Qed.

Lemma killWatch_case_change (iden : string) (r r' : Room) :
  outcome (killWatch_case iden r) = Some (r', tt) → change r r'.
Proof.
  rewrite killWatch_case_eq. destruct (accessCheck r iden "") eqn:E; cbn; intros [= <-].
  - constructor.
  - apply accessCheck_nil in E as [Hs Hw]. by apply change_deleted.
Qed.

Lemma change_lockstep (r r' : Room) : change r r' → lockstep r → lockstep r'.
Proof.
  unfold lockstep. intros [| iden Hs Hw | iden key value m Hs Hw | iden Hs Hw] H; cbn.
  - done.
  - by rewrite !dom_insert_L, H.
  - rewrite dom_insert_L, <- H. apply (elem_of_dom_2 (sessions r)) in Hs.
    apply subseteq_union_1_L, singleton_subseteq_l, Hs.
  - by rewrite !dom_delete_L, H.
Qed.

Lemma change_chans_made (r r' : Room) : change r r' → chans_made r → chans_made r'.
Proof.
  unfold chans_made.
  intros [| iden Hs Hw | iden key value m Hs Hw | iden Hs Hw] [Hk H]; cbn.
  - done.
  - split; [lia |]. intros i c. rewrite lookup_insert. case_decide.
    + intros [= <-]. lia.
    + intros Hc. apply H in Hc. lia.
  - done.
  - split; [done |]. intros i c. rewrite lookup_delete. case_decide; [done |]. apply H.
Qed.

Lemma NewRoom_lockstep (live : Z) : lockstep (NewRoom live).
Proof. unfold lockstep. cbn. by rewrite !dom_empty_L. Qed.

Lemma NewRoom_chans_made (live : Z) : chans_made (NewRoom live).
Proof. split; cbn; [lia |]. intros iden c. by rewrite lookup_empty. Qed.

Lemma reachable_change (P : Room → Prop) :
  (∀ live, P (NewRoom live)) → (∀ r r', change r r' → P r → P r') →
  ∀ r, reachable r → P r.
Proof.
  intros Hnew Hch r Hr. induction Hr as [live | c r r' e _ IH Ho | iden r r' _ IH Ho].
  - apply Hnew.
  - eapply Hch; [| exact IH]. eapply call_change, Ho.
  - eapply Hch; [| exact IH]. eapply killWatch_case_change, Ho.
Qed.

Lemma reachable_lockstep (r : Room) : reachable r → lockstep r.
Proof. apply reachable_change; [apply NewRoom_lockstep | apply change_lockstep]. Qed.

Lemma reachable_chans_made (r : Room) : reachable r → chans_made r.
Proof. apply reachable_change; [apply NewRoom_chans_made | apply change_chans_made]. Qed.

(** No method panics: a call returns, in every room. *)
Lemma call_returns (c : call) (r : Room) :
  ∃ r' e, outcome (call_err c r) = Some (r', e).
Proof.
  call_cases c.
  - destruct (has (sessions r) iden); [cbn; eauto |].
    destruct (has (watchers r) iden); cbn; eauto.
  - destruct (accessCheck r iden key); cbn; eauto.
  - destruct (accessCheck r iden "") eqn:E; cbn; [eauto |].
    destruct (decide (Forall (λ k, is_Some (session r iden !! k)) keys)) as [Hall | Hex].
    + destruct (batch_loop_present (session r iden) keys 0 (replicate (length keys) ""))
        as (vs & _ & ->); [rewrite length_replicate; lia | done |]. cbn. eauto.
    + apply not_Forall_Exists in Hex; [| apply _].
      rewrite batch_loop_absent; [cbn; eauto | rewrite length_replicate; lia |].
      eapply Exists_impl; [exact Hex |]. intros k. cbn. apply eq_None_not_Some.
  - destruct (accessCheck r iden "") eqn:E; cbn; [eauto |].
    apply accessCheck_nil in E as [[m Hs] Hw]. rewrite Hs. cbn. eauto.
  - destruct (accessCheck r iden "") eqn:E; cbn; [eauto |].
    apply accessCheck_nil in E as [[m Hs] Hw]. rewrite Hs. cbn. eauto.
  - destruct (accessCheck r iden ""); cbn; eauto.
Qed.

(** ** Get, and the empty key *)

(** C2, at the input where the code departs from it: in the room that has
    the one session "a", just added and with no key, [Get] of the empty key
    reports no error and returns the empty string, although the session has
    no value under that key; [GetBatch] of the same key reports
    [ErrKeyDoesntExist]. *)
Theorem C2_Get_absent_empty_key_returns_nil_error :
  let r := added "a" (NewRoom 0) in
  outcome (Add "a" (NewRoom 0)) = Some (r, None) ∧
  session r "a" !! "" = None ∧
  outcome (Get "a" "" r) = Some (r, ("", None)) ∧
  outcome (GetBatch "a" [""] r) = Some (r, (None, Some ErrKeyDoesntExist)).
Proof. by vm_compute. Qed.

(** C10: in a room whose two maps have the same keys, [Get] of the empty key
    on a session that exists returns what the session holds under the empty
    key, the empty string when it holds nothing, and a nil error; on an
    identifier without a session it returns [ErrDoesntExist]; so it never
    returns [ErrKeyDoesntExist]. After [Set] of the empty key it returns
    the value set. *)
Theorem C10_Get_empty_key (r : Room) (iden : string) :
  lockstep r →
  match sessions r !! iden with
  | Some s => outcome (Get iden "" r) = Some (r, (default "" (s !! ""), None))
  | None => outcome (Get iden "" r) = Some (r, ("", Some ErrDoesntExist))
  end ∧
  (∀ r' v, outcome (Get iden "" r) ≠ Some (r', (v, Some ErrKeyDoesntExist))) ∧
  (∀ rev value, is_Some (sessions r !! iden) →
     ∃ r1, outcome (Set_ rev iden "" value r) = Some (r1, None) ∧
           outcome (Get iden "" r1) = Some (r1, (value, None))).
Proof.
  intros Hl.
  assert (match sessions r !! iden with
          | Some s => outcome (Get iden "" r) = Some (r, (default "" (s !! ""), None))
          | None => outcome (Get iden "" r) = Some (r, ("", Some ErrDoesntExist))
          end) as Hget.
  { destruct (sessions r !! iden) as [s |] eqn:Hs.
    - apply Get_empty_key; [done |]. apply lockstep_lookup; eauto.
    - by apply Get_no_session. }
  split; [exact Hget |]. split.
  - intros r' v. destruct (sessions r !! iden); rewrite Hget; congruence.
  - intros rev value [s Hs].
    assert (is_Some (watchers r !! iden)) as Hw by (apply lockstep_lookup; eauto).
    eexists. split; [by apply Set_outcome |].
    eapply Get_present; cbn; [apply lookup_insert_eq | done | apply lookup_insert_eq].
Qed.

Lemma C10_Get_empty_key_witness :
  outcome (Get "a" "" (added "a" (NewRoom 0))) = Some (added "a" (NewRoom 0), ("", None)).
Proof.
  apply (proj1 (C10_Get_empty_key (added "a" (NewRoom 0)) "a" ltac:(vm_compute; reflexivity))).
Defined.

(** ** GetBatch *)

(** C3: in a room whose two maps have the same keys, [GetBatch] on an
    identifier without a session returns the nil slice and
    [ErrDoesntExist]; on a session in which every key is present it returns
    the values of the keys, in the order of the keys, and a nil error; on a
    session in which some key is absent it returns the nil slice and
    [ErrKeyDoesntExist]. The room is the same afterwards. *)
Theorem C3_GetBatch_all_or_nothing (r : Room) (iden : string) (keys : list string) :
  lockstep r →
  match sessions r !! iden with
  | None => outcome (GetBatch iden keys r) = Some (r, (None, Some ErrDoesntExist))
  | Some s =>
      (Forall (λ k, is_Some (s !! k)) keys →
         ∃ values, outcome (GetBatch iden keys r) = Some (r, (Some values, None)) ∧
                   Forall2 (λ k v, s !! k = Some v) keys values) ∧
      (Exists (λ k, s !! k = None) keys →
         outcome (GetBatch iden keys r) = Some (r, (None, Some ErrKeyDoesntExist)))
  end.
Proof.
  intros Hl. rewrite GetBatch_eq.
  destruct (sessions r !! iden) as [s |] eqn:Hs.
  - assert (is_Some (watchers r !! iden)) as Hw by (apply lockstep_lookup; eauto).
    rewrite accessCheck_empty_key by eauto. cbn.
    unfold session. rewrite Hs. cbn. split.
    + intros Hall.
      destruct (batch_loop_present s keys 0 (replicate (length keys) ""))
        as (vs & Hvs & ->); [rewrite length_replicate; lia | done |].
      exists vs. split; [| done]. cbn.
      rewrite drop_ge by (rewrite length_replicate; lia).
      by rewrite app_nil_r.
    + intros Hex.
      by rewrite batch_loop_absent; [| rewrite length_replicate; lia |].
  - by rewrite accessCheck_no_session.
Qed.

Lemma C3_GetBatch_all_or_nothing_witness :
  outcome (GetBatch "a" ["k1"; "k2"] (stored "a" "k1" "v1" ∅ (added "a" (NewRoom 0)))) =
    Some (stored "a" "k1" "v1" ∅ (added "a" (NewRoom 0)), (None, Some ErrKeyDoesntExist)).
Proof.
  apply (proj2 (C3_GetBatch_all_or_nothing
                  (stored "a" "k1" "v1" ∅ (added "a" (NewRoom 0))) "a" ["k1"; "k2"]
                  ltac:(vm_compute; reflexivity))).
  apply Exists_cons_tl, Exists_cons_hd. reflexivity.
Defined.

(** ** The two maps in step *)

(** C4: the new room has the same keys in its two maps; every call of a
    method, and every delete of the reaper, leaves two maps with the same
    keys when it found them so; hence in every reachable room an identifier
    has a session exactly when it has a watcher (one, the map being a map). *)
Theorem C4_lockstep :
  (∀ live, lockstep (NewRoom live)) ∧
  (∀ c r r' e, lockstep r → outcome (call_err c r) = Some (r', e) → lockstep r') ∧
  (∀ iden r r', lockstep r → outcome (killWatch_case iden r) = Some (r', tt) → lockstep r') ∧
  (∀ r, reachable r →
     dom (sessions r) = dom (watchers r) ∧
     ∀ iden, is_Some (sessions r !! iden) ↔ is_Some (watchers r !! iden)).
Proof.
  split; [apply NewRoom_lockstep |]. split; [| split].
  - intros c r r' e Hl Ho. eapply change_lockstep; [eapply call_change, Ho | done].
  - intros iden r r' Hl Ho.
    eapply change_lockstep; [eapply killWatch_case_change, Ho | done].
  - intros r Hr. apply reachable_lockstep in Hr. split; [exact Hr |].
    intros iden. by apply lockstep_lookup.
Qed.

Lemma C4_lockstep_witness :
  lockstep (added "a" (NewRoom 0)) ∧ lockstep (deleted "a" (added "a" (NewRoom 0))).
Proof.
  split.
  - apply (proj1 (proj2 C4_lockstep) (CallAdd "a") (NewRoom 0) _ None);
      [vm_compute; reflexivity | reflexivity].
  - apply (proj1 (proj2 (proj2 C4_lockstep)) "a" (added "a" (NewRoom 0)));
      [vm_compute; reflexivity | vm_compute; reflexivity].
Defined.

(** ** Add *)

(** C5: [Add] of an identifier that has a session or a watcher returns
    [ErrAlreadyExists], in the same room and without starting a timer;
    [Add] of an identifier that has neither returns nil, starts one timer
    on a channel made for it, and leaves a room in which the identifier has
    the empty session and that channel, and every other identifier what it
    had; in a reachable room no identifier had the new channel, nor is it
    the killer channel. A second [Add] of the same identifier returns
    [ErrAlreadyExists] in the room that the first one left. *)
Theorem C5_Add (r : Room) (iden : string) :
  (is_Some (sessions r !! iden) ∨ is_Some (watchers r !! iden) →
     outcome (Add iden r) = Some (r, Some ErrAlreadyExists) ∧ effects (Add iden r) = []) ∧
  (sessions r !! iden = None → watchers r !! iden = None →
     ∃ r', outcome (Add iden r) = Some (r', None) ∧
           effects (Add iden r) = [EGo (disp r) iden (next_chan r) (killer r)] ∧
           sessions r' = <[iden := ∅]> (sessions r) ∧
           watchers r' = <[iden := next_chan r]> (watchers r) ∧
           (reachable r →
              killer r ≠ next_chan r ∧ ∀ other, watchers r !! other ≠ Some (next_chan r))) ∧
  (∀ r1 e1, outcome (Add iden r) = Some (r1, e1) →
     outcome (Add iden r1) = Some (r1, Some ErrAlreadyExists)).
Proof.
  assert (∀ r0, is_Some (sessions r0 !! iden) ∨ is_Some (watchers r0 !! iden) →
            Add iden r0 = Return r0 (Some ErrAlreadyExists)) as Htaken.
  { intros r0 H. rewrite Add_eq.
    destruct (has (sessions r0) iden) eqn:Hs; [done |].
    destruct (has (watchers r0) iden) eqn:Hw; [done |].
    apply has_false in Hs, Hw. destruct H as [[? H] | [? H]]; congruence. }
  split; [| split].
  - intros H. by rewrite Htaken.
  - intros Hs Hw. exists (added iden r). rewrite Add_eq.
    apply has_false in Hs, Hw. rewrite Hs, Hw. cbn. repeat split; try done.
    + apply reachable_chans_made in H as [Hk _]. lia.
    + intros other Ho. apply reachable_chans_made in H as [_ H]. apply H in Ho. lia.
  - intros r1 e1 Ho. rewrite Htaken; [done |].
    rewrite Add_eq in Ho.
    destruct (has (sessions r) iden) eqn:Hs.
    { cbn in Ho. injection Ho as <- <-. left. by apply has_true. }
    destruct (has (watchers r) iden) eqn:Hw.
    { cbn in Ho. injection Ho as <- <-. right. by apply has_true. }
    cbn in Ho. injection Ho as <- <-. left. cbn. rewrite lookup_insert_eq. eauto.
Qed.

Lemma C5_Add_witness :
  outcome (Add "a" (added "a" (NewRoom 0))) = Some (added "a" (NewRoom 0), Some ErrAlreadyExists).
Proof.
  apply (proj2 (proj2 (C5_Add (NewRoom 0) "a")) (added "a" (NewRoom 0)) None).
  reflexivity.
Defined.

(** ** Set *)

(** C6: in a room whose two maps have the same keys, with sessions [a] and
    [b], [a ≠ b]: [Set] of [k] to [v1] in [a] and then of [k] to [v2] in [b]
    both return nil, and then [Get] of [k] returns [v1] in [a] and [v2] in
    [b]; a later [Set] of [k] to [v3] in [a] returns nil, and then [Get] of
    [k] returns [v3] in [a] and still [v2] in [b]. This holds for [Set] of
    either revision. *)
Theorem C6_Set_isolated (rev : revision) (r : Room) (a b k v1 v2 : string) :
  lockstep r → is_Some (sessions r !! a) → is_Some (sessions r !! b) → a ≠ b →
  ∃ r1 r2,
    outcome (Set_ rev a k v1 r) = Some (r1, None) ∧
    outcome (Set_ rev b k v2 r1) = Some (r2, None) ∧
    outcome (Get a k r2) = Some (r2, (v1, None)) ∧
    outcome (Get b k r2) = Some (r2, (v2, None)) ∧
    ∀ v3, ∃ r3,
      outcome (Set_ rev a k v3 r2) = Some (r3, None) ∧
      outcome (Get a k r3) = Some (r3, (v3, None)) ∧
      outcome (Get b k r3) = Some (r3, (v2, None)).
Proof.
  intros Hl [sa Ha] [sb Hb] Hab.
  assert (is_Some (watchers r !! a)) as Hwa by (apply lockstep_lookup; eauto).
  assert (is_Some (watchers r !! b)) as Hwb by (apply lockstep_lookup; eauto).
  set (r1 := stored a k v1 sa r).
  set (r2 := stored b k v2 sb r1).
  assert (sessions r2 !! a = Some (<[k := v1]> sa)) as Ha2.
  { cbn. by rewrite lookup_insert_ne, lookup_insert_eq. }
  assert (sessions r2 !! b = Some (<[k := v2]> sb)) as Hb2.
  { cbn. by rewrite lookup_insert_eq. }
  exists r1, r2. split; [by apply Set_outcome |]. split.
  { apply Set_outcome; [| done]. cbn. by rewrite lookup_insert_ne. }
  split; [eapply Get_present; [exact Ha2 | done | apply lookup_insert_eq] |].
  split; [eapply Get_present; [exact Hb2 | done | apply lookup_insert_eq] |].
  intros v3. exists (stored a k v3 (<[k := v1]> sa) r2).
  split; [by apply Set_outcome |]. split.
  - eapply Get_present; cbn; [apply lookup_insert_eq | done | apply lookup_insert_eq].
  - eapply Get_present; cbn; [| done | apply lookup_insert_eq].
    by rewrite lookup_insert_ne, lookup_insert_eq.
Qed.

Lemma C6_Set_isolated_witness :
  ∃ r1 r2,
    outcome (Set_ GoshGo "a" "k" "v1" (added "b" (added "a" (NewRoom 0)))) = Some (r1, None) ∧
    outcome (Set_ GoshGo "b" "k" "v2" r1) = Some (r2, None) ∧
    outcome (Get "a" "k" r2) = Some (r2, ("v1", None)) ∧
    outcome (Get "b" "k" r2) = Some (r2, ("v2", None)).
Proof.
  destruct (C6_Set_isolated GoshGo (added "b" (added "a" (NewRoom 0))) "a" "b" "k" "v1" "v2")
    as (r1 & r2 & H1 & H2 & H3 & H4 & _).
  - vm_compute; reflexivity.
  - exists ∅. vm_compute; reflexivity.
  - exists ∅. vm_compute; reflexivity.
  - intros H. discriminate H.
  - exists r1, r2. repeat split; assumption.
Defined.

(** ** Errors *)

(** C7: on an identifier without a session, [Get], [GetBatch], [Set] of
    either revision and [Del] return [ErrDoesntExist]; and a call of any
    method that returns an error returns in the room in which it began,
    whatever the room and the error. *)
Theorem C7_errors_change_nothing (r : Room) (iden : string) :
  sessions r !! iden = None →
  (∀ key, outcome (Get iden key r) = Some (r, ("", Some ErrDoesntExist))) ∧
  (∀ keys, outcome (GetBatch iden keys r) = Some (r, (None, Some ErrDoesntExist))) ∧
  (∀ rev key value, outcome (Set_ rev iden key value r) = Some (r, Some ErrDoesntExist)) ∧
  outcome (Del iden r) = Some (r, Some ErrDoesntExist) ∧
  (∀ c r0 r' e, outcome (call_err c r0) = Some (r', Some e) →
     r' = r0 ∧ sessions r' = sessions r0 ∧ watchers r' = watchers r0).
Proof.
  intros Hs. split; [intros key; by apply Get_no_session |].
  split; [intros keys; by rewrite GetBatch_eq, accessCheck_no_session |].
  split; [intros rev key value; by apply Set_no_session |].
  split; [by apply Del_no_session |].
  intros c r0 r' e Ho. by rewrite (call_err_same_room c r0 r' e Ho).
Qed.

Lemma C7_errors_change_nothing_witness :
  outcome (Get "nope" "k" (NewRoom 0)) = Some (NewRoom 0, ("", Some ErrDoesntExist)) ∧
  outcome (Set_ GoshGo "nope" "k" "v" (NewRoom 0)) = Some (NewRoom 0, Some ErrDoesntExist) ∧
  outcome (Set_ Part000 "nope" "k" "v" (NewRoom 0)) = Some (NewRoom 0, Some ErrDoesntExist) ∧
  outcome (Del "nope" (NewRoom 0)) = Some (NewRoom 0, Some ErrDoesntExist).
Proof.
  destruct (C7_errors_change_nothing (NewRoom 0) "nope") as (Hg & _ & Hs & Hd & _).
  - reflexivity.
  - split; [apply Hg |]. split; [apply Hs |]. split; [apply Hs | apply Hd].
Defined.

(** ** The timer *)

(** No call but a successful [Add] starts a timer, and that one starts the
    timer of its identifier. *)
Lemma call_effects_go (c : call) (r : Room) (d : dispatcher) (iden : string) (ping kill : nat) :
  EGo d iden ping kill ∈ effects (call_err c r) →
  c = CallAdd iden ∧ outcome (call_err c r) = Some (added iden r, None).
Proof.
  call_cases c;
    repeat match goal with
      | |- context [accessCheck ?r ?i ?k] => destruct (accessCheck r i k)
      | |- context [has ?m ?i] => destruct (has m i)
      | |- context [batch_loop ?s ?ks ?i ?vs] => destruct (batch_loop s ks i vs)
      | |- context [sessions ?r !! ?i] => destruct (sessions r !! i)
      end; cbn;
    rewrite ?elem_of_cons, elem_of_nil; try tauto; try (intros [H | []]; discriminate H).
  intros [H | []]. by injection H as -> -> -> ->.
Qed.

Section Timer.

Context (d : dispatcher) (iden : string).

Lemma watch_run_Terminated (evs : list select_case) :
  watch_run d iden Terminated evs = (Terminated, []).
Proof. induction evs as [| ev evs IH]; [done |]. cbn. by rewrite IH. Qed.

Lemma watch_from_start (evs : list select_case) :
  watch d iden evs =
    if bool_decide (TimeAfter ∈ evs) then (Terminated, [iden])
    else (Armed (lifetime d), []).
Proof.
  unfold watch, watch_start. induction evs as [| ev evs IH]; [done |].
  destruct ev; cbn.
  - rewrite IH. destruct (bool_decide (TimeAfter ∈ evs)) eqn:E.
    + apply bool_decide_eq_true in E. rewrite bool_decide_eq_true_2; [done |].
      apply elem_of_cons. by right.
    + apply bool_decide_eq_false in E. rewrite bool_decide_eq_false_2; [done |].
      intros [H | H]%elem_of_cons; [done | by apply E].
  - rewrite watch_run_Terminated. rewrite bool_decide_eq_true_2; [done |].
    apply elem_of_cons. by left.
Qed.

(** C8: a timer that is armed and receives a ping is armed with the whole
    lifetime to wait; one that is armed and whose wait elapses sends its
    identifier on [kill], once, and has terminated; one that has terminated
    stays so and sends nothing. Hence, along any sequence of [select]
    outcomes from its start, a timer has sent its identifier exactly once
    and has terminated if the wait elapsed at some turn, and has sent
    nothing and is armed with the whole lifetime otherwise. The methods
    start no timer, but [Add] when it succeeds, and the reaper starts
    none. *)
Theorem C8_timer :
  (∀ left', watch_step d iden (Armed left') RecvPing = (Armed (lifetime d), [])) ∧
  (∀ left', watch_step d iden (Armed left') TimeAfter = (Terminated, [iden])) ∧
  (∀ ev, watch_step d iden Terminated ev = (Terminated, [])) ∧
  (∀ evs, watch_run d iden Terminated evs = (Terminated, [])) ∧
  (∀ evs, watch d iden evs =
            if bool_decide (TimeAfter ∈ evs) then (Terminated, [iden])
            else (Armed (lifetime d), [])) ∧
  (∀ c r ping kill, EGo d iden ping kill ∈ effects (call_err c r) →
     c = CallAdd iden ∧ outcome (call_err c r) = Some (added iden r, None)) ∧
  (∀ r, effects (killWatch_case iden r) = []).
Proof.
  split; [done |]. split; [done |]. split; [done |].
  split; [apply watch_run_Terminated |].
  split; [apply watch_from_start |].
  split; [intros c r ping kill; apply call_effects_go |].
  intros r. rewrite killWatch_case_eq. by destruct (accessCheck r iden "").
Qed.

End Timer.

Lemma C8_timer_witness :
  CallAdd "a" = CallAdd "a" ∧
  outcome (call_err (CallAdd "a") (NewRoom 5)) = Some (added "a" (NewRoom 5), None).
Proof.
  apply (proj1 (proj2 (proj2 (proj2 (proj2 (proj2 (C8_timer (mkDispatcher 5) "a"))))))
           (CallAdd "a") (NewRoom 5) 2 1).
  vm_compute. apply elem_of_cons. by left.
Defined.

(** ** Sequencing *)

Lemma outcome_bind {A B : Type} (p : run A) (f : A → M B) :
  outcome (run_bind p f) =
    match outcome p with
    | Some (r, a) => outcome (f a r)
    | None => None
    end.
Proof. induction p as [r a | | r c k IH | d i pg kl k IH]; cbn; done. Qed.

Lemma effects_bind {A B : Type} (p : run A) (f : A → M B) :
  effects (run_bind p f) =
    effects p ++ match outcome p with
                 | Some (r, a) => effects (f a r)
                 | None => []
                 end.
Proof.
  induction p as [r a | | r c k IH | d i pg kl k IH]; cbn; [done | done | |];
    by rewrite IH.
Qed.

(** ** The reaper *)

(** The case of the reaper's [select], in a room whose two maps have the
    same keys: it returns without an effect, and the identifier is gone. *)
Lemma killWatch_case_deletes (i : string) (r : Room) :
  lockstep r →
  ∃ r1, killWatch_case i r = Return r1 tt ∧ lockstep r1 ∧
        sessions r1 = delete i (sessions r) ∧ watchers r1 = delete i (watchers r).
Proof.
  intros Hl. rewrite killWatch_case_eq.
  destruct (accessCheck r i "") as [e |] eqn:E.
  - exists r. split; [done |]. split; [done |].
    apply accessCheck_empty_key_err in E as [_ E].
    pose proof (lockstep_lookup r i Hl) as H.
    assert (sessions r !! i = None ∧ watchers r !! i = None) as [Hs Hw].
    { destruct E as [E | E]; rewrite E in H; split; try done.
      - apply eq_None_not_Some. rewrite <- H. by intros [? ?].
      - apply eq_None_not_Some. rewrite H. by intros [? ?]. }
    by rewrite !delete_id.
  - exists (deleted i r). split; [done |]. split; [| done].
    apply accessCheck_nil in E as [Hs Hw].
    eapply change_lockstep; [by apply change_deleted | done].
Qed.

(** The loop of the reaper, in a room whose two maps have the same keys:
    it applies its case to every identifier received, so that these are
    gone from both maps and the others are as they were. *)
Lemma killWatch_received (received : list string) (r : Room) :
  lockstep r →
  ∃ r', outcome (killWatch received r) = Some (r', tt) ∧
        effects (killWatch received r) = [] ∧
        lockstep r' ∧
        ∀ other,
          sessions r' !! other =
            (if bool_decide (other ∈ received) then None else sessions r !! other) ∧
          watchers r' !! other =
            (if bool_decide (other ∈ received) then None else watchers r !! other).
Proof.
  revert r. induction received as [| i rest IH]; intros r Hl.
  { exists r. cbn. split; [done |]. split; [done |]. split; [done |]. intros other.
    rewrite bool_decide_eq_false_2; [done | apply not_elem_of_nil]. }
  cbn. unfold mbind, M_bind. rewrite outcome_bind, effects_bind.
  destruct (killWatch_case_deletes i r Hl) as (r1 & -> & Hl1 & Hs1 & Hw1).
  cbn. destruct (IH r1 Hl1) as (r' & Ho & He & Hl' & Hr').
  exists r'. split; [done |]. split; [done |]. split; [done |].
  intros other. destruct (Hr' other) as [-> ->]. rewrite Hs1, Hw1.
  destruct (decide (other = i)) as [-> | Hne].
  - rewrite (bool_decide_eq_true_2 (i ∈ i :: rest)) by (apply elem_of_cons; by left).
    rewrite !lookup_delete_eq. by destruct (bool_decide (i ∈ rest)).
  - rewrite !lookup_delete_ne by done.
    destruct (bool_decide (other ∈ rest)) eqn:E.
    + apply bool_decide_eq_true in E.
      by rewrite bool_decide_eq_true_2 by (apply elem_of_cons; by right).
    + apply bool_decide_eq_false in E.
      rewrite bool_decide_eq_false_2; [done |].
      intros [? | ?]%elem_of_cons; done.
Qed.

(** C9: for an identifier received on the killer channel the reaper does
    what [Del] does to the room and returns nothing, whatever [Del]
    returned; the only error that this [Del] can return is
    [ErrDoesntExist], in a room where the identifier has no session or no
    watcher, which it leaves as it was. So after a [Del] that removed the
    session, the reaper's delete of the same identifier changes nothing.
    The loop of the reaper applies this case to every identifier that it
    receives, in the order in which it receives them, and goes through any
    sequence of them; in a room whose two maps have the same keys it sends
    and starts nothing, and leaves the room without the identifiers
    received, in both maps, and with every other identifier as it was. *)
Theorem C9_reaper (iden : string) (r : Room) :
  (∃ r' e, outcome (Del iden r) = Some (r', e) ∧
           outcome (killWatch_case iden r) = Some (r', tt) ∧
           effects (killWatch_case iden r) = [] ∧
           ∀ e', e = Some e' →
                 e' = ErrDoesntExist ∧ r' = r ∧
                 (sessions r !! iden = None ∨ watchers r !! iden = None)) ∧
  (∀ r1, outcome (Del iden r) = Some (r1, None) →
         outcome (killWatch_case iden r1) = Some (r1, tt)) ∧
  (∀ received, ∃ r', outcome (killWatch received r) = Some (r', tt)) ∧
  (∀ received r1 e, outcome (Del iden r) = Some (r1, e) →
     outcome (killWatch (iden :: received) r) = outcome (killWatch received r1)) ∧
  (∀ received, lockstep r →
     ∃ r', outcome (killWatch received r) = Some (r', tt) ∧
           effects (killWatch received r) = [] ∧
           ∀ other,
             sessions r' !! other =
               (if bool_decide (other ∈ received) then None else sessions r !! other) ∧
             watchers r' !! other =
               (if bool_decide (other ∈ received) then None else watchers r !! other)).
Proof.
  split; [| split; [| split; [| split]]].
  - rewrite killWatch_case_eq, Del_eq.
    destruct (accessCheck r iden "") as [e |] eqn:E; cbn.
    + exists r, (Some e). split; [done |]. split; [done |]. split; [done |].
      intros e' [= <-]. apply accessCheck_empty_key_err in E as [-> H]. done.
    + eexists _, None. split; [done |]. split; [done |]. split; [done |]. done.
  - intros r1. rewrite Del_eq. destruct (accessCheck r iden ""); cbn; [done |].
    intros [= <-]. rewrite killWatch_case_eq, accessCheck_no_session; [done |].
    cbn. apply lookup_delete_eq.
  - intros received. revert r.
    induction received as [| i rest IH]; intros r; cbn; [by eexists |].
    unfold mbind, M_bind. rewrite killWatch_case_eq.
    destruct (accessCheck r i ""); cbn; apply IH.
  - intros received r1 e. cbn. unfold mbind, M_bind.
    rewrite outcome_bind, killWatch_case_eq, Del_eq.
    destruct (accessCheck r iden ""); cbn; by intros [= <- _].
  - intros received Hl.
    destruct (killWatch_received received r Hl) as (r' & Ho & He & _ & Hr').
    by exists r'.
Qed.

Lemma C9_reaper_witness :
  outcome (killWatch_case "a" (deleted "a" (added "a" (NewRoom 0)))) =
    Some (deleted "a" (added "a" (NewRoom 0)), tt) ∧
  ∃ r', outcome (killWatch ["a"; "nope"] (added "b" (added "a" (NewRoom 0)))) = Some (r', tt) ∧
        sessions r' !! "a" = None ∧ sessions r' !! "b" = Some ∅.
Proof.
  split.
  - apply (proj1 (proj2 (C9_reaper "a" (added "a" (NewRoom 0))))).
    vm_compute; reflexivity.
  - destruct (proj2 (proj2 (proj2 (proj2 (C9_reaper "a" (added "b" (added "a" (NewRoom 0)))))))
                ["a"; "nope"]) as (r' & Ho & _ & Hr').
    + vm_compute; reflexivity.
    + exists r'. split; [exact Ho |]. split.
      * exact (proj1 (Hr' "a")).
      * exact (proj1 (Hr' "b")).
Defined.

(** ** The send under the mutex *)

(** The holder of the mutex is at its send, and no timer is at its
    [select] or has anything to send: nothing moves any more. *)
Lemma deadlocked_at_send (s : sys) (w : goroutine) (r : Room) (c : nat) (k : run unit) :
  holder s = Some (w, Send r c k) →
  Forall (λ t, at_select t = false ∧ t_pending t = []) (timers s) →
  deadlocked s.
Proof.
  intros Hh Ht a. rewrite Forall_lookup in Ht.
  destruct a as [cl | | | i | | i | i]; cbn; rewrite ?Hh; try done.
  - destruct (timers s !! i) as [t |] eqn:E; [| done].
    apply Ht in E as [-> _]. done.
  - destruct (timers s !! i) as [t |] eqn:E; [| done].
    apply Ht in E as [-> _]. done.
  - destruct (timers s !! i) as [t |] eqn:E; [| done].
    apply Ht in E as [_ ->]. by destruct (reaper s).
Qed.

(** A receiver is there for the send of the holder as long as a timer of
    that channel is at its [select]. *)
Lemma deliver_at_select (s : sys) (w : goroutine) (r : Room) (k : run unit) (i : nat) (t : timer) :
  holder s = Some (w, Send r (t_ping t) k) → timers s !! i = Some t → at_select t = true →
  exec (ADeliver i) s =
    Some (mkSys (room s) (Some (w, k)) (<[i := timer_select t RecvPing]> (timers s)) (reaper s)).
Proof.
  intros Hh Ht Hsel. cbn. rewrite Hh, Ht, Hsel. cbn.
  by rewrite bool_decide_eq_true_2.
Qed.

(** A run without the race: the session is added and written, the ping of
    [Set] is received by the timer, the wait elapses, the reaper deletes the
    session, and a later [Get] returns with the mutex free again. *)
Example expiry_run (live : Z) :
  ∃ s, exec_all [ALock (CallAdd "a"); AGo; AUnlock;
                 ALock (CallSet GoshGo "a" "k" "v"); ADeliver 0; AUnlock;
                 AFire 0; AKill 0; AReap; AUnlock;
                 ALock (CallGet "a" "k"); AUnlock] (init live) = Some s ∧
       sessions (room s) = ∅ ∧ watchers (room s) = ∅ ∧
       holder s = None ∧ reaper s = None.
Proof. eexists. split; [vm_compute; reflexivity |]. done. Qed.

(** C1, at the schedules where the code departs from it. A session "a" is
    added; the wait of its timer elapses; then a client calls [Get],
    [GetBatch] or [Set] (of either revision) on "a", either after the
    reaper has received the identifier and before its [Del] has the mutex,
    or before the reaper has received it. The call passes [accessCheck],
    the session being still there, and comes to its send on the channel of
    "a" holding the mutex; the timer is past its [select], so the send is
    never received; the reaper waits for the mutex: no goroutine can move,
    and no other call can start. *)
Theorem C1_send_under_mutex_deadlocks (live : Z) :
  Forall (λ c,
    Forall (λ sch,
      ∃ s, exec_all sch (init live) = Some s ∧ stuck_at_send "a" s)
      [ [ALock (CallAdd "a"); AGo; AUnlock; AFire 0; AKill 0; ALock c];
        [ALock (CallAdd "a"); AGo; AUnlock; AFire 0; ALock c; AKill 0] ])
    [CallGet "a" ""; CallGetBatch "a" ["k"]; CallSet GoshGo "a" "k" "v";
     CallSet Part000 "a" "k" "v"].
Proof.
  repeat apply Forall_cons_2; try apply Forall_nil_2;
    (eexists; split; [vm_compute; reflexivity |]);
    (eexists _, _, _; split; [reflexivity |]);
    (split; [vm_compute; reflexivity |]);
    (split; [by eexists |]);
    (split; [reflexivity |]);
    (eapply deadlocked_at_send; [reflexivity |]);
    by repeat constructor.
Qed.

(** * Further properties of the methods *)

(** What [Get] answers depends on the two entries of its identifier only. *)
Lemma Get_ext (r r' : Room) (iden key : string) :
  sessions r' !! iden = sessions r !! iden →
  watchers r' !! iden = watchers r !! iden →
  snd <$> outcome (Get iden key r') = snd <$> outcome (Get iden key r).
Proof.
  intros Hs Hw. rewrite !Get_eq.
  assert (accessCheck r' iden key = accessCheck r iden key) as ->.
  { unfold accessCheck, has, session. by rewrite Hs, Hw. }
  destruct (accessCheck r iden key); cbn; [done |].
  unfold session_value, session. by rewrite Hs.
Qed.

(** ** Del *)

(** X1: in a room whose two maps have the same keys, [Del] of a session
    that exists returns nil without a send or a new timer, removes the
    identifier from both maps and makes no channel; after it the
    identifier is unknown to [Get], to [Set] and to a second [Del], which
    return [ErrDoesntExist] and change nothing. *)
Theorem X1_Del_removes (r : Room) (iden : string) :
  lockstep r → is_Some (sessions r !! iden) →
  ∃ r', outcome (Del iden r) = Some (r', None) ∧
        effects (Del iden r) = [] ∧
        sessions r' = delete iden (sessions r) ∧
        watchers r' = delete iden (watchers r) ∧
        next_chan r' = next_chan r ∧
        outcome (Del iden r') = Some (r', Some ErrDoesntExist) ∧
        (∀ key, outcome (Get iden key r') = Some (r', ("", Some ErrDoesntExist))) ∧
        (∀ rev key value,
           outcome (Set_ rev iden key value r') = Some (r', Some ErrDoesntExist)).
Proof.
  intros Hl Hs.
  assert (is_Some (watchers r !! iden)) as Hw by by apply lockstep_lookup.
  exists (deleted iden r). rewrite Del_eq, accessCheck_empty_key by done.
  assert (sessions (deleted iden r) !! iden = None) as Hgone by apply lookup_delete_eq.
  split; [done |]. split; [done |]. split; [done |]. split; [done |]. split; [done |].
  split; [by apply Del_no_session |].
  split; [intros key; by apply Get_no_session |].
  intros rev key value. by apply Set_no_session.
Qed.

Lemma X1_Del_removes_witness :
  ∃ r', outcome (Del "a" (added "a" (NewRoom 0))) = Some (r', None) ∧
        outcome (Del "a" r') = Some (r', Some ErrDoesntExist).
Proof.
  destruct (X1_Del_removes (added "a" (NewRoom 0)) "a")
    as (r' & Ho & _ & _ & _ & _ & Hd & _).
  - vm_compute; reflexivity.
  - exists ∅. vm_compute; reflexivity.
  - exists r'. split; assumption.
Defined.

(** X2: a session that is deleted and added again starts empty: in a
    reachable room, whatever the session [iden] held, after [Del] and
    [Add] of [iden] both return nil, the session is the empty map, [Get] of
    any key but the empty one returns [ErrKeyDoesntExist], and the channel
    of the session is one that it did not have before. *)
Theorem X2_Add_after_Del_is_empty (r : Room) (iden : string) (c : nat) :
  reachable r → watchers r !! iden = Some c →
  ∃ r1 r2, outcome (Del iden r) = Some (r1, None) ∧
           outcome (Add iden r1) = Some (r2, None) ∧
           sessions r2 !! iden = Some ∅ ∧
           (∀ key, key ≠ "" →
              outcome (Get iden key r2) = Some (r2, ("", Some ErrKeyDoesntExist))) ∧
           ∃ c', watchers r2 !! iden = Some c' ∧ c' ≠ c.
Proof.
  intros Hr Hc.
  assert (lockstep r) as Hl by by apply reachable_lockstep.
  assert (is_Some (sessions r !! iden)) as Hs by (apply lockstep_lookup; eauto).
  exists (deleted iden r), (added iden (deleted iden r)).
  split; [by rewrite Del_eq, accessCheck_empty_key by eauto |].
  assert (has (sessions (deleted iden r)) iden = false) as Hs1
    by (apply has_false, lookup_delete_eq).
  assert (has (watchers (deleted iden r)) iden = false) as Hw1
    by (apply has_false, lookup_delete_eq).
  split; [by rewrite Add_eq, Hs1, Hw1 |].
  assert (sessions (added iden (deleted iden r)) !! iden = Some ∅) as Hs2
    by apply lookup_insert_eq.
  assert (watchers (added iden (deleted iden r)) !! iden = Some (next_chan r)) as Hw2
    by apply lookup_insert_eq.
  split; [done |]. split.
  - intros key Hk. eapply Get_absent; [exact Hs2 | eauto | done | apply lookup_empty].
  - exists (next_chan r). split; [done |].
    apply reachable_chans_made in Hr as [_ Hr]. apply Hr in Hc. lia.
Qed.

Lemma X2_Add_after_Del_is_empty_witness :
  ∃ r2, outcome (Get "a" "k" r2) = Some (r2, ("", Some ErrKeyDoesntExist)).
Proof.
  destruct (X2_Add_after_Del_is_empty
              (stored "a" "k" "v" ∅ (added "a" (NewRoom 0))) "a" 2)
    as (r1 & r2 & _ & _ & _ & Hg & _).
  - apply (reach_call (CallSet GoshGo "a" "k" "v") (added "a" (NewRoom 0)) _ None).
    + apply (reach_call (CallAdd "a") (NewRoom 0) _ None); [apply reach_new | reflexivity].
    + vm_compute; reflexivity.
  - vm_compute; reflexivity.
  - exists r2. apply Hg. intros H. discriminate H.
Defined.

(** ** One session at a time *)

(** The room after a call is the room before it, or differs from it at the
    identifier of the call, in one of three ways. *)
Lemma call_change_iden (c : call) (r r' : Room) (e : option error) :
  outcome (call_err c r) = Some (r', e) →
  r' = r ∨ r' = added (call_iden c) r ∨
  (∃ key value m, r' = stored (call_iden c) key value m r) ∨
  r' = deleted (call_iden c) r.
Proof.
  call_cases c;
    repeat match goal with
      | |- context [accessCheck ?r ?i ?k] => destruct (accessCheck r i k)
      | |- context [has ?m ?i] => destruct (has m i)
      | |- context [batch_loop ?s ?ks ?i ?vs] => destruct (batch_loop s ks i vs)
      | |- context [sessions ?r !! ?i] => destruct (sessions r !! i)
      end; cbn; try done; intros [= <- <-]; eauto 10.
Qed.

(** X3: a call that returns touches its own identifier only: every other
    identifier keeps its session and its channel, and [Get] of any key on
    it answers as before the call. *)
Theorem X3_call_frame (c : call) (r r' : Room) (e : option error) (other : string) :
  outcome (call_err c r) = Some (r', e) → other ≠ call_iden c →
  sessions r' !! other = sessions r !! other ∧
  watchers r' !! other = watchers r !! other ∧
  ∀ key, snd <$> outcome (Get other key r') = snd <$> outcome (Get other key r).
Proof.
  intros Ho Hne.
  assert (sessions r' !! other = sessions r !! other ∧
          watchers r' !! other = watchers r !! other) as [Hs Hw].
  { destruct (call_change_iden c r r' e Ho) as [-> | [-> | [(key & value & m & ->) | ->]]];
      cbn; rewrite ?lookup_insert_ne, ?lookup_delete_ne by done; done. }
  split; [done |]. split; [done |]. intros key. by apply Get_ext.
Qed.

Lemma X3_call_frame_witness :
  sessions (deleted "a" (added "b" (added "a" (NewRoom 0)))) !! "b" =
    sessions (added "b" (added "a" (NewRoom 0))) !! "b".
Proof.
  apply (X3_call_frame (CallDel "a") (added "b" (added "a" (NewRoom 0))) _ None "b").
  - vm_compute; reflexivity.
  - intros H. discriminate H.
Defined.

(** ** Activity signals *)

(** X4: what a call does to the other goroutines, by the call and the error
    that it returns. A successful [Add] starts one timer, on the channel
    that it made; a successful [Get], [GetBatch] or [Set] sends one ping; a
    [GetBatch] that returns [ErrKeyDoesntExist] has sent its ping all the
    same, while a [Get] that returns it has sent none; [Del], and every
    call that returns [ErrDoesntExist] or [ErrAlreadyExists], sends and
    starts nothing. A ping goes to the channel that the room holds for the
    identifier of the call. *)
Theorem X4_call_signals (c : call) (r r' : Room) (e : option error) :
  outcome (call_err c r) = Some (r', e) →
  effects (call_err c r) =
    match c, e with
    | CallAdd iden, None => [EGo (disp r) iden (next_chan r) (killer r)]
    | CallGet iden _, None | CallGetBatch iden _, None | CallSet _ iden _ _, None
    | CallGetBatch iden _, Some ErrKeyDoesntExist => [ESend (watcher r iden)]
    | _, _ => []
    end ∧
  ∀ ch, ESend ch ∈ effects (call_err c r) → watchers r !! call_iden c = Some ch.
Proof.
  assert (∀ iden key ch, accessCheck r iden key = None →
            ESend ch ∈ [ESend (watcher r iden)] → watchers r !! iden = Some ch) as Hch.
  { intros iden key ch E Hin. apply accessCheck_nil in E as [_ [c0 Hw]].
    apply elem_of_cons in Hin as [Hin | Hin]; [| by apply elem_of_nil in Hin].
    injection Hin as ->. unfold watcher. by rewrite Hw. }
  call_cases c.
  - destruct (has (sessions r) iden); cbn.
    { intros [= <- <-]. split; [done | by intros ch ?%elem_of_nil]. }
    destruct (has (watchers r) iden); cbn; intros [= <- <-];
      (split; [done |]); intros ch; rewrite ?elem_of_cons, elem_of_nil;
      [tauto | intros [H | []]; discriminate H].
  - destruct (accessCheck r iden key) as [e0 |] eqn:E; cbn; intros [= <- <-].
    + split; [done | by intros ch ?%elem_of_nil].
    + split; [done |]. intros ch. by apply (Hch iden key).
  - destruct (accessCheck r iden "") as [e0 |] eqn:E; cbn.
    + intros [= <- <-]. apply accessCheck_empty_key_err in E as [-> _].
      split; [done | by intros ch ?%elem_of_nil].
    + destruct (batch_loop _ _ _ _) as [[vs e0] |] eqn:Hb; cbn; [| done].
      intros [= <- <-]. split; [| intros ch; by apply (Hch iden "")].
      destruct e0 as [e0 |]; [| done].
      assert (e0 = ErrKeyDoesntExist) as ->; [| done].
      clear -Hb. revert Hb. generalize 0 (replicate (length keys) "").
      induction keys as [| k keys IH]; intros i values; cbn; [done |].
      destruct (has (session r iden) k); cbn; [| congruence].
      destruct (decide (i < length values)); [apply IH | done].
  - destruct (accessCheck r iden "") as [e0 |] eqn:E; cbn.
    + intros [= <- <-]. split; [done | by intros ch ?%elem_of_nil].
    + destruct (sessions r !! iden); cbn; [| done]. intros [= <- <-].
      split; [done |]. intros ch. by apply (Hch iden "").
  - destruct (accessCheck r iden "") as [e0 |] eqn:E; cbn.
    + intros [= <- <-]. split; [done | by intros ch ?%elem_of_nil].
    + destruct (sessions r !! iden); cbn; [| done]. intros [= <- <-].
      split; [done |]. intros ch. by apply (Hch iden "").
  - destruct (accessCheck r iden ""); cbn; intros [= <- <-];
      (split; [done | by intros ch ?%elem_of_nil]).
Qed.

Lemma X4_call_signals_witness :
  effects (call_err (CallGetBatch "a" ["k"]) (added "a" (NewRoom 0))) = [ESend 2].
Proof.
  apply (X4_call_signals (CallGetBatch "a" ["k"]) (added "a" (NewRoom 0))
           (added "a" (NewRoom 0)) (Some ErrKeyDoesntExist)).
  vm_compute; reflexivity.
Defined.

(** ** GetBatch and Get *)

Lemma GetBatch_present (r : Room) (iden : string) (keys : list string)
    (s : gmap string string) :
  sessions r !! iden = Some s → is_Some (watchers r !! iden) →
  Forall (λ k, is_Some (s !! k)) keys →
  ∃ values, outcome (GetBatch iden keys r) = Some (r, (Some values, None)) ∧
            Forall2 (λ k v, s !! k = Some v) keys values.
Proof.
  intros Hs Hw Hall. rewrite GetBatch_eq, accessCheck_empty_key by eauto. cbn.
  unfold session. rewrite Hs. cbn.
  destruct (batch_loop_present s keys 0 (replicate (length keys) ""))
    as (vs & Hvs & ->); [rewrite length_replicate; lia | done |].
  exists vs. split; [| done]. cbn.
  rewrite drop_ge by (rewrite length_replicate; lia). by rewrite app_nil_r.
Qed.

Lemma GetBatch_absent (r : Room) (iden : string) (keys : list string)
    (s : gmap string string) :
  sessions r !! iden = Some s → is_Some (watchers r !! iden) →
  Exists (λ k, s !! k = None) keys →
  outcome (GetBatch iden keys r) = Some (r, (None, Some ErrKeyDoesntExist)).
Proof.
  intros Hs Hw Hex. rewrite GetBatch_eq, accessCheck_empty_key by eauto. cbn.
  unfold session. rewrite Hs. cbn.
  by rewrite batch_loop_absent; [| rewrite length_replicate; lia |].
Qed.

(** X5: in a room whose two maps have the same keys, for a session that
    exists and keys none of which is the empty string, [GetBatch] returns
    the slice [values] and a nil error exactly when [Get] of each key
    returns the value at the same place of [values] and a nil error. (For
    no key at all it returns the empty slice, not the nil one.) *)
Theorem X5_GetBatch_is_Get_of_each_key (r : Room) (iden : string) (keys values : list string) :
  lockstep r → is_Some (sessions r !! iden) → Forall (λ k, k ≠ "") keys →
  outcome (GetBatch iden keys r) = Some (r, (Some values, None)) ↔
  Forall2 (λ k v, outcome (Get iden k r) = Some (r, (v, None))) keys values.
Proof.
  intros Hl [s Hs] Hne.
  assert (is_Some (watchers r !! iden)) as Hw by (apply lockstep_lookup; eauto).
  split.
  - intros Ho.
    destruct (decide (Forall (λ k, is_Some (s !! k)) keys)) as [Hall | Hex].
    + destruct (GetBatch_present r iden keys s Hs Hw Hall) as (vs & Ho' & Hvs).
      rewrite Ho in Ho'. injection Ho' as ->.
      eapply Forall2_impl; [exact Hvs |]. intros k v Hk. cbn in Hk.
      by eapply Get_present.
    + apply not_Forall_Exists in Hex; [| apply _].
      rewrite (GetBatch_absent r iden keys s) in Ho; [done | done | done |].
      eapply Exists_impl; [exact Hex |]. intros k. cbn. apply eq_None_not_Some.
  - intros Hget.
    assert (Forall2 (λ k v, s !! k = Some v) keys values) as Hvs.
    { clear -Hget Hne Hs Hw. induction Hget as [| k v keys values Hk _ IH]; [constructor |].
      apply Forall_cons in Hne as [Hk0 Hne]. constructor; [| by apply IH].
      destruct (s !! k) as [v' |] eqn:E.
      - rewrite (Get_present r iden k s v') in Hk by done. congruence.
      - rewrite (Get_absent r iden k s) in Hk by done. congruence. }
    destruct (GetBatch_present r iden keys s Hs Hw) as (vs & Ho & Hvs').
    { eapply Forall2_Forall_l; [exact Hvs |]. apply Forall_true. intros v k Hk. eauto. }
    rewrite Ho. do 4 f_equal.
    eapply Forall2_unique; [exact Hvs' | exact Hvs |]. cbn. congruence.
Qed.

Lemma X5_GetBatch_is_Get_of_each_key_witness :
  outcome (GetBatch "a" ["k"; "k"] (stored "a" "k" "v" ∅ (added "a" (NewRoom 0)))) =
    Some (stored "a" "k" "v" ∅ (added "a" (NewRoom 0)), (Some ["v"; "v"], None)).
Proof.
  apply (X5_GetBatch_is_Get_of_each_key
           (stored "a" "k" "v" ∅ (added "a" (NewRoom 0))) "a" ["k"; "k"] ["v"; "v"]).
  - vm_compute; reflexivity.
  - eexists. vm_compute; reflexivity.
  - repeat constructor; intros H; discriminate H.
  - repeat constructor.
Defined.

(** ** Set within a session *)

(** [Set] of either revision, in any room. *)
Lemma Set_outcome_cases (rev : revision) (r : Room) (iden key value : string) :
  outcome (Set_ rev iden key value r) =
    match accessCheck r iden "" with
    | Some e => Some (r, Some e)
    | None =>
        match sessions r !! iden with
        | Some m => Some (stored iden key value m r, None)
        | None => None
        end
    end.
Proof.
  destruct rev; cbn; [rewrite Set_v1_eq | rewrite Set_v2_eq];
    destruct (accessCheck r iden ""); cbn; try done;
    by destruct (sessions r !! iden).
Qed.

Lemma stored_accessCheck (r : Room) (iden key value : string) (m : gmap string string) :
  accessCheck r iden "" = None →
  accessCheck (stored iden key value m r) iden "" = None.
Proof.
  intros [_ Hw]%accessCheck_nil. apply accessCheck_empty_key; [| done].
  cbn. rewrite lookup_insert_eq. eauto.
Qed.

(** One [Set] after another, on the same identifier. *)
Lemma Set_twice (rev : revision) (r : Room) (iden k1 v1 k2 v2 : string) :
  outcome ((Set_ rev iden k1 v1 ;; Set_ rev iden k2 v2) r) =
    match accessCheck r iden "" with
    | Some e => Some (r, Some e)
    | None =>
        match sessions r !! iden with
        | Some m =>
            Some (with_sessions <[iden := <[k2 := v2]> (<[k1 := v1]> m)]> r, None)
        | None => None
        end
    end.
Proof.
  unfold mbind, M_bind. rewrite outcome_bind, !Set_outcome_cases.
  destruct (accessCheck r iden "") as [e |] eqn:E.
  { rewrite Set_outcome_cases. by rewrite E. }
  destruct (sessions r !! iden) as [m |] eqn:Hs; [| done].
  rewrite Set_outcome_cases, stored_accessCheck by done. cbn.
  rewrite lookup_insert_eq. unfold stored, with_sessions. cbn.
  by rewrite insert_insert_eq.
Qed.

(** X6: in any room and for [Set] of either revision: of two [Set]s of the
    same key in a row the second one decides (so a [Set] done twice is the
    [Set] done once); two [Set]s of different keys of a session give the
    same room and the same error in either order; and a [Set] of the key
    [k] leaves [Get] of every other key of the session with the answer that
    it had. *)
Theorem X6_Set_within_session (rev : revision) (r : Room) (iden k v1 v2 k' v' : string) :
  outcome ((Set_ rev iden k v1 ;; Set_ rev iden k v2) r) = outcome (Set_ rev iden k v2 r) ∧
  (k ≠ k' →
     outcome ((Set_ rev iden k v1 ;; Set_ rev iden k' v') r) =
       outcome ((Set_ rev iden k' v' ;; Set_ rev iden k v1) r) ∧
     ∀ r1 e, outcome (Set_ rev iden k v1 r) = Some (r1, e) →
             snd <$> outcome (Get iden k' r1) = snd <$> outcome (Get iden k' r)).
Proof.
  split; [| intros Hk; split].
  - rewrite Set_twice, Set_outcome_cases.
    destruct (accessCheck r iden ""); [done |].
    destruct (sessions r !! iden); [| done].
    by rewrite insert_insert_eq.
  - rewrite !Set_twice.
    destruct (accessCheck r iden ""); [done |].
    destruct (sessions r !! iden); [| done].
    by rewrite insert_insert_ne.
  - intros r1 e. rewrite Set_outcome_cases.
    destruct (accessCheck r iden "") as [e0 |] eqn:E; [by intros [= <- <-] |].
    destruct (sessions r !! iden) as [m |] eqn:Hs; [| done].
    intros [= <- <-]. rewrite !Get_eq.
    apply accessCheck_nil in E as [_ Hw].
    assert (session_value (stored iden k v1 m r) iden k' = session_value r iden k') as ->.
    { unfold session_value, session. cbn. rewrite lookup_insert_eq, Hs. cbn.
      by rewrite lookup_insert_ne. }
    destruct (decide (k' = "")) as [-> | Hk'].
    + rewrite !accessCheck_empty_key; cbn; rewrite ?lookup_insert_eq; eauto.
    + rewrite (accessCheck_key _ iden k' (<[k := v1]> m)), (accessCheck_key r iden k' m);
        try done; [| cbn; by rewrite lookup_insert_eq].
      rewrite lookup_insert_ne by done. by destruct (m !! k').
Qed.

Lemma X6_Set_within_session_witness :
  outcome ((Set_ GoshGo "a" "k" "v" ;; Set_ GoshGo "a" "j" "w") (added "a" (NewRoom 0))) =
    outcome ((Set_ GoshGo "a" "j" "w" ;; Set_ GoshGo "a" "k" "v") (added "a" (NewRoom 0))).
Proof.
  apply (proj2 (X6_Set_within_session GoshGo (added "a" (NewRoom 0)) "a" "k" "v" "" "j" "w")).
  intros H. discriminate H.
Defined.

(** ** The loop of the reaper *)

(** X7: in a room whose two maps have the same keys, the loop of
    [killWatch] over the identifiers that it receives sends nothing and
    starts nothing, and leaves the room without the identifiers received
    and with every other identifier as it was, in both maps; identifiers
    received twice, or unknown, do no harm. *)
Theorem X7_killWatch_deletes_received (received : list string) (r : Room) :
  lockstep r →
  ∃ r', outcome (killWatch received r) = Some (r', tt) ∧
        effects (killWatch received r) = [] ∧
        lockstep r' ∧
        ∀ iden,
          sessions r' !! iden =
            (if bool_decide (iden ∈ received) then None else sessions r !! iden) ∧
          watchers r' !! iden =
            (if bool_decide (iden ∈ received) then None else watchers r !! iden).
Proof.
  revert r. induction received as [| i rest IH]; intros r Hl.
  { exists r. cbn. split; [done |]. split; [done |]. split; [done |]. intros iden.
    rewrite bool_decide_eq_false_2; [done | apply not_elem_of_nil]. }
  cbn. unfold mbind, M_bind. rewrite outcome_bind, effects_bind.
  destruct (killWatch_case_deletes i r Hl) as (r1 & -> & Hl1 & Hs1 & Hw1).
  cbn. destruct (IH r1 Hl1) as (r' & Ho & He & Hl' & Hr').
  exists r'. split; [done |]. split; [done |]. split; [done |].
  intros iden. destruct (Hr' iden) as [-> ->]. rewrite Hs1, Hw1.
  destruct (decide (iden = i)) as [-> | Hne].
  - rewrite (bool_decide_eq_true_2 (i ∈ i :: rest)) by (apply elem_of_cons; by left).
    rewrite !lookup_delete_eq. by destruct (bool_decide (i ∈ rest)).
  - rewrite !lookup_delete_ne by done.
    destruct (bool_decide (iden ∈ rest)) eqn:E.
    + apply bool_decide_eq_true in E.
      by rewrite bool_decide_eq_true_2 by (apply elem_of_cons; by right).
    + apply bool_decide_eq_false in E.
      rewrite bool_decide_eq_false_2; [done |].
      intros [? | ?]%elem_of_cons; done.
Qed.

Lemma X7_killWatch_deletes_received_witness :
  ∃ r', outcome (killWatch ["a"; "nope"; "a"] (added "b" (added "a" (NewRoom 0)))) =
          Some (r', tt) ∧
        sessions r' !! "a" = None ∧ sessions r' !! "b" = Some ∅.
Proof.
  destruct (X7_killWatch_deletes_received ["a"; "nope"; "a"] (added "b" (added "a" (NewRoom 0))))
    as (r' & Ho & _ & _ & Hr').
  - vm_compute; reflexivity.
  - exists r'. split; [exact Ho |]. split.
    + exact (proj1 (Hr' "a")).
    + exact (proj1 (Hr' "b")).
Defined.

(** ** No panic *)

(** X8: in a room reached from [NewRoom] by calls and deletes of the
    reaper, no call panics: the write of [Set] goes to the map that [Add]
    made for the session and the index of [GetBatch] is in range; the call
    returns, in the room that it found or in the room that differs from it
    by one session added, written or deleted, which is a reachable room
    again, with the same keys in its two maps. *)
Theorem X8_calls_return (c : call) (r : Room) :
  reachable r →
  ∃ r' e, outcome (call_err c r) = Some (r', e) ∧ change r r' ∧
          reachable r' ∧ lockstep r'.
Proof.
  intros Hr. destruct (call_returns c r) as (r' & e & Ho).
  assert (reachable r') as Hr' by by eapply reach_call.
  exists r', e. split; [done |]. split; [by eapply call_change |].
  split; [done | by apply reachable_lockstep].
Qed.

Lemma X8_calls_return_witness :
  ∃ r' e, outcome (call_err (CallSet GoshGo "a" "k" "v") (added "a" (NewRoom 0))) =
            Some (r', e) ∧ lockstep r'.
Proof.
  destruct (X8_calls_return (CallSet GoshGo "a" "k" "v") (added "a" (NewRoom 0)))
    as (r' & e & Ho & _ & _ & Hl).
  - apply (reach_call (CallAdd "a") (NewRoom 0) _ None); [apply reach_new | reflexivity].
  - exists r', e. split; assumption.
Defined.

(** * Further properties of the goroutines *)

Lemma at_select_inv (t : timer) :
  at_select t = true → ∃ l, t_state t = Armed l ∧ t_pending t = [].
Proof.
  unfold at_select. destruct (t_state t) as [l |]; [| done].
  destruct (t_pending t); [eauto | done].
Qed.

Lemma timer_select_ping (t : timer) :
  at_select t = true → timer_select t RecvPing = rearmed t.
Proof.
  intros (l & Hst & Hp)%at_select_inv. unfold timer_select, rearmed.
  by rewrite Hst, Hp.
Qed.

Lemma timer_select_after (t : timer) :
  at_select t = true →
  timer_select t TimeAfter =
    mkTimer (t_disp t) (t_iden t) (t_ping t) (t_kill t) Terminated [t_iden t].
Proof.
  intros (l & Hst & Hp)%at_select_inv. unfold timer_select.
  by rewrite Hst, Hp.
Qed.

Lemma exec_ok (a : action) (s s' : sys) : sys_ok s → exec a s = Some s' → sys_ok s'.
Proof.
  intros [Hr Hh]. destruct a as [c | | | i | | i | i]; cbn.
  - destruct (holder s); [done |]. intros [= <-]. split; [done |]. cbn.
    destruct (call_returns c (room s)) as (r' & e & Ho). exists r'.
    unfold call_run, mbind, M_bind. rewrite outcome_bind, Ho. cbn.
    split; [done |]. by eapply reach_call.
  - destruct (holder s); [done |]. destruct (reaper s) as [iden |]; [| done].
    intros [= <-]. split; [done |]. cbn.
    rewrite killWatch_case_eq.
    destruct (accessCheck (room s) iden "") eqn:E; eexists; (split; [done |]);
      [done |].
    eapply (reach_reap iden); [exact Hr |]. by rewrite killWatch_case_eq, E.
  - destruct (holder s) as [[w p] |]; [| done].
    destruct p as [| | | d iden ping kill k]; try done. intros [= <-]. by split.
  - destruct (holder s) as [[w p] |]; [| done].
    destruct p as [| | r c k |]; try done.
    destruct (timers s !! i) as [t |]; [| done].
    destruct (at_select t && bool_decide (t_ping t = c)); [| done].
    intros [= <-]. by split.
  - destruct (holder s) as [[w p] |]; [| done].
    destruct p as [r u | | |]; try done. intros [= <-].
    destruct Hh as (r' & [= <-] & Hr'). by split.
  - destruct (timers s !! i) as [t |]; [| done].
    destruct (at_select t); [| done]. intros [= <-]. by split.
  - destruct (timers s !! i) as [t |]; [| done].
    destruct (reaper s); [done |].
    destruct (t_pending t); [done |].
    destruct (bool_decide (t_kill t = killer (room s))); [| done].
    intros [= <-]. by split.
Qed.

(** X9: whatever the schedule of the goroutines from the new room on, the
    room that the last [Unlock] left is one that the calls, read one after
    the other, reach: its two maps have the same keys. And the method of
    the holder of the mutex has not panicked: if its sends are received, it
    returns, in such a room again. *)
Theorem X9_schedules_keep_lockstep (live : Z) (sch : list action) (s : sys) :
  exec_all sch (init live) = Some s →
  reachable (room s) ∧ lockstep (room s) ∧
  ∀ w p, holder s = Some (w, p) → ∃ r', outcome p = Some (r', tt) ∧ lockstep r'.
Proof.
  assert (∀ s0, sys_ok s0 → exec_all sch s0 = Some s → sys_ok s) as Hall.
  { induction sch as [| a sch IH]; intros s0 H0; cbn; [by intros [= <-] |].
    destruct (exec a s0) as [s1 |] eqn:E; [| done].
    apply IH. by eapply exec_ok. }
  intros Hrun. destruct (Hall (init live)) as [Hr Hh]; [| done |].
  { split; [apply reach_new | done]. }
  split; [done |]. split; [by apply reachable_lockstep |].
  intros w p Hp. rewrite Hp in Hh. destruct Hh as (r' & Ho & Hr').
  exists r'. split; [done | by apply reachable_lockstep].
Qed.

Lemma X9_schedules_keep_lockstep_witness :
  ∃ s, exec_all [ALock (CallAdd "a"); AGo; AUnlock; AFire 0; ALock (CallDel "a"); AUnlock]
         (init 0) = Some s ∧ lockstep (room s).
Proof.
  eexists. split; [vm_compute; reflexivity |].
  apply (X9_schedules_keep_lockstep 0
           [ALock (CallAdd "a"); AGo; AUnlock; AFire 0; ALock (CallDel "a"); AUnlock]).
  vm_compute; reflexivity.
Defined.

(** A method that sends one ping and returns is a send and a return. *)
Lemma one_send_tree {A : Type} (p : run A) (ch : nat) (r' : Room) (a : A) :
  effects p = [ESend ch] → outcome p = Some (r', a) →
  ∃ r0, p = Send r0 ch (Return r' a).
Proof.
  destruct p as [| | r0 c k |]; cbn; try done.
  intros [= -> He] Ho. exists r0. f_equal.
  destruct k; cbn in *; try done. by injection Ho as -> ->.
Qed.

(** X10: with the mutex free and a timer at its [select] on the channel to
    which a call sends its one ping, the call goes through in three moves,
    [Lock], the send received, [Unlock]: it leaves the room that it leaves
    when read alone, the mutex free, and that timer with the whole lifetime
    to wait. *)
Theorem X10_call_with_live_timer (s : sys) (c : call) (i : nat) (t : timer)
    (r' : Room) (e : option error) :
  holder s = None → timers s !! i = Some t → at_select t = true →
  outcome (call_err c (room s)) = Some (r', e) →
  effects (call_err c (room s)) = [ESend (t_ping t)] →
  exec_all [ALock c; ADeliver i; AUnlock] s =
    Some (mkSys r' None (<[i := rearmed t]> (timers s)) (reaper s)).
Proof.
  intros Hh Ht Hsel Ho He.
  destruct (one_send_tree _ _ _ _ He Ho) as (r0 & Hp).
  cbn. rewrite Hh. cbn. unfold call_run, mbind, M_bind. rewrite Hp. cbn.
  rewrite Ht, Hsel. cbn. rewrite bool_decide_eq_true_2 by done. cbn.
  by rewrite timer_select_ping.
Qed.

Lemma X10_call_with_live_timer_witness :
  exec_all [ALock (CallSet Part000 "a" "k" "v"); ADeliver 0; AUnlock]
    (mkSys (added "a" (NewRoom 5)) None [mkTimer (mkDispatcher 5) "a" 2 1 (Armed 5) []] None) =
  Some (mkSys (stored "a" "k" "v" ∅ (added "a" (NewRoom 5))) None
          [mkTimer (mkDispatcher 5) "a" 2 1 (Armed 5) []] None).
Proof.
  apply (X10_call_with_live_timer
           (mkSys (added "a" (NewRoom 5)) None [mkTimer (mkDispatcher 5) "a" 2 1 (Armed 5) []] None)
           (CallSet Part000 "a" "k" "v") 0 (mkTimer (mkDispatcher 5) "a" 2 1 (Armed 5) [])
           (stored "a" "k" "v" ∅ (added "a" (NewRoom 5))) None);
    vm_compute; reflexivity.
Defined.

(** X11: the expiry of a timer deletes the session that has its identifier
    now. With the mutex free, the reaper at its receive and the two maps
    with the same keys, a timer at its [select] whose wait elapses hands
    its identifier to the reaper, whose [Del] removes that identifier from
    both maps; the channel on which the timer listens plays no part, so the
    timer of a session that was deleted and added again deletes the later
    session. *)
Theorem X11_expiry_deletes_by_name (s : sys) (i : nat) (t : timer) :
  holder s = None → reaper s = None → timers s !! i = Some t → at_select t = true →
  t_kill t = killer (room s) → lockstep (room s) →
  ∃ r', exec_all [AFire i; AKill i; AReap; AUnlock] s =
          Some (mkSys r' None (<[i := returned t]> (timers s)) None) ∧
        sessions r' = delete (t_iden t) (sessions (room s)) ∧
        watchers r' = delete (t_iden t) (watchers (room s)).
Proof.
  intros Hh Hr Ht Hsel Hk Hl.
  destruct (killWatch_case_deletes (t_iden t) (room s) Hl) as (r' & Hkw & _ & Hs & Hw).
  exists r'. split; [| done].
  assert (i < length (timers s)) as Hi by by eapply lookup_lt_Some.
  cbn. rewrite Ht, Hsel. cbn.
  rewrite list_lookup_insert_eq by done. rewrite Hr, timer_select_after by done. cbn.
  rewrite bool_decide_eq_true_2 by done. cbn.
  rewrite Hh, Hkw. cbn. by rewrite list_insert_insert_eq.
Qed.

Lemma X11_expiry_deletes_by_name_witness :
  let s := mkSys (added "a" (deleted "a" (added "a" (NewRoom 5)))) None
             [mkTimer (mkDispatcher 5) "a" 2 1 (Armed 5) [];
              mkTimer (mkDispatcher 5) "a" 3 1 (Armed 5) []] None in
  exec_all [ALock (CallAdd "a"); AGo; AUnlock; ALock (CallDel "a"); AUnlock;
            ALock (CallAdd "a"); AGo; AUnlock] (init 5) = Some s ∧
  watchers (room s) !! "a" = Some 3 ∧
  ∃ r', exec_all [AFire 0; AKill 0; AReap; AUnlock] s =
          Some (mkSys r' None
                  [mkTimer (mkDispatcher 5) "a" 2 1 Terminated [];
                   mkTimer (mkDispatcher 5) "a" 3 1 (Armed 5) []] None) ∧
        sessions r' !! "a" = None.
Proof.
  intros s. split; [vm_compute; reflexivity |]. split; [vm_compute; reflexivity |].
  destruct (X11_expiry_deletes_by_name s 0 (mkTimer (mkDispatcher 5) "a" 2 1 (Armed 5) []))
    as (r' & Hrun & Hs & _); try (vm_compute; reflexivity).
  exists r'. split; [exact Hrun |]. rewrite Hs. reflexivity.
Defined.

(** X12: no move of any goroutine ends a timer or changes the arguments of
    its [watch]; and a timer at its [select] is still there after any
    move but the one that takes its own [time.After] case. So [Del] leaves
    the timer of the session that it deletes waiting. *)
Theorem X12_timers_are_not_stopped (a : action) (s s' : sys) (i : nat) (t : timer) :
  exec a s = Some s' → timers s !! i = Some t →
  ∃ t', timers s' !! i = Some t' ∧
        t_disp t' = t_disp t ∧ t_iden t' = t_iden t ∧
        t_ping t' = t_ping t ∧ t_kill t' = t_kill t ∧
        (a ≠ AFire i → at_select t = true → at_select t' = true).
Proof.
  intros He Ht.
  assert (i < length (timers s)) as Hi by by eapply lookup_lt_Some.
  destruct a as [c | | | j | | j | j]; cbn in He.
  - destruct (holder s); [done |]. injection He as <-. eauto 10.
  - destruct (holder s); [done |]. destruct (reaper s); [| done].
    injection He as <-. eauto 10.
  - destruct (holder s) as [[w p] |]; [| done].
    destruct p as [| | | d iden ping kill k]; try done. injection He as <-.
    exists t. cbn. rewrite lookup_app_l by done. eauto 10.
  - destruct (holder s) as [[w p] |]; [| done].
    destruct p as [| | r c k |]; try done.
    destruct (timers s !! j) as [tj |] eqn:Hj; [| done].
    destruct (at_select tj) eqn:Hsel; [| done]. cbn in He.
    destruct (bool_decide (t_ping tj = c)); [| done]. injection He as <-. cbn.
    destruct (decide (j = i)) as [-> | Hne].
    + rewrite list_lookup_insert_eq by done. rewrite Ht in Hj. injection Hj as <-.
      exists (timer_select t RecvPing). rewrite timer_select_ping by done. by cbn.
    + rewrite list_lookup_insert_ne by done. eauto 10.
  - destruct (holder s) as [[w p] |]; [| done].
    destruct p as [r u | | |]; try done. injection He as <-. eauto 10.
  - destruct (timers s !! j) as [tj |] eqn:Hj; [| done].
    destruct (at_select tj) eqn:Hsel; [| done]. injection He as <-. cbn.
    destruct (decide (j = i)) as [-> | Hne].
    + rewrite list_lookup_insert_eq by done. rewrite Ht in Hj. injection Hj as <-.
      exists (timer_select t TimeAfter). rewrite timer_select_after by done. cbn.
      do 5 (split; [done |]). by intros [].
    + rewrite list_lookup_insert_ne by done. eauto 10.
  - destruct (timers s !! j) as [tj |] eqn:Hj; [| done].
    destruct (reaper s); [done |].
    destruct (t_pending tj) as [| iden rest] eqn:Hp; [done |].
    destruct (bool_decide (t_kill tj = killer (room s))); [| done].
    injection He as <-. cbn.
    destruct (decide (j = i)) as [-> | Hne].
    + rewrite list_lookup_insert_eq by done. rewrite Ht in Hj. injection Hj as <-.
      exists (timer_sent t rest). cbn. do 5 (split; [done |]).
      intros _ (l & _ & Hp')%at_select_inv. congruence.
    + rewrite list_lookup_insert_ne by done. eauto 10.
Qed.

Lemma X12_timers_are_not_stopped_witness :
  ∃ s s' t', exec_all [ALock (CallAdd "a"); AGo; AUnlock; ALock (CallDel "a")] (init 5) = Some s ∧
             exec AUnlock s = Some s' ∧ sessions (room s') !! "a" = None ∧
             timers s' !! 0 = Some t' ∧ t_iden t' = "a" ∧ at_select t' = true.
Proof.
  eexists _, _.
  destruct (X12_timers_are_not_stopped AUnlock
              (mkSys (added "a" (NewRoom 5))
                 (Some (Client, Return (deleted "a" (added "a" (NewRoom 5))) tt))
                 [mkTimer (mkDispatcher 5) "a" 2 1 (Armed 5) []] None)
              (mkSys (deleted "a" (added "a" (NewRoom 5))) None
                 [mkTimer (mkDispatcher 5) "a" 2 1 (Armed 5) []] None)
              0 (mkTimer (mkDispatcher 5) "a" 2 1 (Armed 5) []))
    as (t' & Ht' & _ & Hi & _ & _ & Hsel); try (vm_compute; reflexivity).
  exists t'. split; [vm_compute; reflexivity |]. split; [vm_compute; reflexivity |].
  split; [vm_compute; reflexivity |]. split; [exact Ht' |]. split; [exact Hi |].
  apply Hsel; [intros H; discriminate H | reflexivity].
Defined.

(** A holder at its send on [ch], with every timer of [ch] past its
    [select], is still there after any move. *)
Lemma exec_blocked (a : action) (s s' : sys) (w : goroutine) (r : Room) (ch : nat)
    (k : run unit) :
  holder s = Some (w, Send r ch k) →
  Forall (λ t, t_ping t = ch → t_state t = Terminated) (timers s) →
  exec a s = Some s' →
  holder s' = Some (w, Send r ch k) ∧ room s' = room s ∧
  Forall (λ t, t_ping t = ch → t_state t = Terminated) (timers s').
Proof.
  intros Hh Ht. rewrite Forall_lookup in Ht.
  destruct a as [c | | | i | | i | i]; cbn; rewrite ?Hh; try done.
  - destruct (timers s !! i) as [t |] eqn:E; [| done].
    destruct (at_select t) eqn:Hsel; [| done]. cbn.
    destruct (bool_decide (t_ping t = ch)) eqn:Hch; [| done].
    apply bool_decide_eq_true in Hch. apply at_select_inv in Hsel as (l & Hst & _).
    rewrite (Ht i t E Hch) in Hst. done.
  - destruct (timers s !! i) as [t |] eqn:E; [| done].
    destruct (at_select t) eqn:Hsel; [| done]. intros [= <-]. cbn.
    split; [done |]. split; [done |].
    apply Forall_insert; [by apply Forall_lookup |].
    by rewrite timer_select_after.
  - destruct (timers s !! i) as [t |] eqn:E; [| done].
    destruct (reaper s); [done |].
    destruct (t_pending t); [done |].
    destruct (bool_decide (t_kill t = killer (room s))); [| done].
    intros [= <-]. cbn. split; [done |]. split; [done |].
    apply Forall_insert; [by apply Forall_lookup |]. cbn. by apply (Ht i).
Qed.

(** X13: a ping to a session whose timer has taken its [time.After] case
    holds the mutex for ever. If the holder of the mutex is at its send on
    a channel, and every timer that listens on that channel is past its
    [select] (waiting at its send on [kill], or returned), then after any
    moves of any goroutines the holder is at the same send, and the room is
    the same: the method does not return, its [Unlock] does not run, no
    other call starts and the reaper deletes nothing. *)
Theorem X13_ping_after_expiry_never_returns (sch : list action) (s s' : sys)
    (w : goroutine) (r : Room) (ch : nat) (k : run unit) :
  holder s = Some (w, Send r ch k) →
  Forall (λ t, t_ping t = ch → t_state t = Terminated) (timers s) →
  exec_all sch s = Some s' →
  holder s' = Some (w, Send r ch k) ∧ room s' = room s ∧
  (∀ c, exec (ALock c) s' = None) ∧ exec AReap s' = None ∧ exec AUnlock s' = None.
Proof.
  revert s. induction sch as [| a sch IH]; intros s Hh Ht; cbn.
  - intros [= <-]. cbn. by rewrite Hh.
  - destruct (exec a s) as [s1 |] eqn:E; [| done].
    destruct (exec_blocked a s s1 w r ch k Hh Ht E) as (Hh1 & Hr1 & Ht1).
    intros Hrun. destruct (IH s1 Hh1 Ht1 Hrun) as (H1 & H2 & H3).
    split; [done |]. split; [congruence | done].
Qed.

Lemma X13_ping_after_expiry_never_returns_witness :
  let r := added "b" (added "a" (NewRoom 5)) in
  let s := mkSys r (Some (Client, Send r 2 (Return r tt)))
             [mkTimer (mkDispatcher 5) "a" 2 1 Terminated ["a"];
              mkTimer (mkDispatcher 5) "b" 3 1 (Armed 5) []] None in
  exec_all [ALock (CallAdd "a"); AGo; AUnlock; ALock (CallAdd "b"); AGo; AUnlock;
            AFire 0; ALock (CallGet "a" "")] (init 5) = Some s ∧
  ∃ s', exec_all [AFire 1; AKill 0] s = Some s' ∧ ∀ c, exec (ALock c) s' = None.
Proof.
  intros r s. split; [vm_compute; reflexivity |].
  eexists. split; [vm_compute; reflexivity |].
  eapply (λ H1 H2 H3,
            proj1 (proj2 (proj2
              (X13_ping_after_expiry_never_returns [AFire 1; AKill 0] s _ _ _ _ _ H1 H2 H3)))).
  - reflexivity.
  - cbn. repeat constructor; intros H; try reflexivity; discriminate H.
  - vm_compute; reflexivity.
Defined.

(** ** The lifetime of the room *)

Lemma change_room_of (live : Z) (r r' : Room) : change r r' → room_of live r → room_of live r'.
Proof. by intros [| iden Hs Hw | iden key value m Hs Hw | iden Hs Hw]. Qed.

(** The timer that a call starts has the dispatcher and the killer channel
    of the room. *)
Lemma call_go_args (c : call) (r : Room) (d : dispatcher) (iden : string) (ping kill : nat) :
  EGo d iden ping kill ∈ effects (call_err c r) → d = disp r ∧ kill = killer r.
Proof.
  call_cases c;
    repeat match goal with
      | |- context [accessCheck ?r ?i ?k] => destruct (accessCheck r i k)
      | |- context [has ?m ?i] => destruct (has m i)
      | |- context [batch_loop ?s ?ks ?i ?vs] => destruct (batch_loop s ks i vs)
      | |- context [sessions ?r !! ?i] => destruct (sessions r !! i)
      end; cbn;
    rewrite ?elem_of_cons, elem_of_nil; try tauto; try (intros [H | []]; discriminate H).
  intros [H | []]. by injection H as -> -> -> ->.
Qed.

Lemma call_run_effects (c : call) (r : Room) :
  effects (call_run c r) = effects (call_err c r).
Proof.
  unfold call_run, mbind, M_bind. rewrite effects_bind.
  destruct (outcome (call_err c r)) as [[r' e] |]; cbn; by rewrite app_nil_r.
Qed.

Lemma call_run_outcome (c : call) (r r' : Room) (u : unit) :
  outcome (call_run c r) = Some (r', u) → ∃ e, outcome (call_err c r) = Some (r', e).
Proof.
  unfold call_run, mbind, M_bind. rewrite outcome_bind.
  destruct (outcome (call_err c r)) as [[r1 e] |]; cbn; [| done].
  intros [= <- _]. eauto.
Qed.

Lemma timer_select_of (live : Z) (t : timer) (ev : select_case) :
  timer_of live t → timer_of live (timer_select t ev).
Proof.
  intros (Hd & Hk & Hl). unfold timer_select, watch_step.
  destruct (t_state t), ev; cbn; (split; [done |]); (split; [done |]); cbn; try done.
  intros l [= <-]. by rewrite Hd.
Qed.

Lemma exec_of (live : Z) (a : action) (s s' : sys) :
  sys_of live s → exec a s = Some s' → sys_of live s'.
Proof.
  intros (Hr & Ht & Hh). destruct a as [c | | | i | | i | i]; cbn.
  - destruct (holder s); [done |]. intros [= <-]. split; [done |]. split; [done |]. cbn.
    split.
    + intros d iden ping kill. rewrite call_run_effects.
      intros [-> ->]%call_go_args. by destruct Hr as [-> ->].
    + intros r' u [e Ho]%call_run_outcome.
      eapply change_room_of; [by eapply call_change | done].
  - destruct (holder s); [done |]. destruct (reaper s) as [iden |]; [| done].
    intros [= <-]. split; [done |]. split; [done |]. cbn.
    rewrite killWatch_case_eq. destruct (accessCheck (room s) iden ""); cbn.
    + split; [by intros d i p k ?%elem_of_nil | by intros r' u [= <- _]].
    + split; [by intros d i p k ?%elem_of_nil | by intros r' u [= <- _]].
  - destruct (holder s) as [[w p] |]; [| done].
    destruct p as [| | | d iden ping kill k]; try done. intros [= <-].
    destruct Hh as [Hgo Hout]. cbn in Hgo.
    destruct (Hgo d iden ping kill) as [-> ->]; [apply elem_of_cons; by left |].
    split; [done |]. split.
    + cbn. apply Forall_app. split; [done |]. apply Forall_singleton.
      split; [done |]. split; [done |]. cbn. by intros l [= <-].
    + cbn. split; [| done]. intros d i p kl Hin. apply (Hgo d i p kl).
      apply elem_of_cons. by right.
  - destruct (holder s) as [[w p] |]; [| done].
    destruct p as [| | r c k |]; try done.
    destruct (timers s !! i) as [t |] eqn:E; [| done].
    destruct (at_select t && bool_decide (t_ping t = c)); [| done].
    intros [= <-]. destruct Hh as [Hgo Hout]. split; [done |]. split.
    + cbn. apply Forall_insert; [done |]. apply timer_select_of.
      by eapply (proj1 (Forall_lookup _ _) Ht).
    + cbn. split; [| done]. intros d i' p kl Hin. apply (Hgo d i' p kl).
      cbn. apply elem_of_cons. by right.
  - destruct (holder s) as [[w p] |]; [| done].
    destruct p as [r u | | |]; try done. intros [= <-].
    destruct Hh as [_ Hout]. split; [by eapply Hout |]. by split.
  - destruct (timers s !! i) as [t |] eqn:E; [| done].
    destruct (at_select t); [| done]. intros [= <-]. split; [done |]. split; [| done].
    cbn. apply Forall_insert; [done |]. apply timer_select_of.
    by eapply (proj1 (Forall_lookup _ _) Ht).
  - destruct (timers s !! i) as [t |] eqn:E; [| done].
    destruct (reaper s); [done |].
    destruct (t_pending t); [done |].
    destruct (bool_decide (t_kill t = killer (room s))); [| done].
    intros [= <-]. split; [done |]. split; [| done].
    cbn. apply Forall_insert; [done |].
    by destruct (proj1 (Forall_lookup _ _) Ht i t E) as (Hd & Hk & Hl).
Qed.

(** X14: the lifetime given to [NewRoom] is the lifetime of every timer.
    Whatever the schedule from [NewRoom live] on, every timer goroutine has
    the dispatcher of that lifetime and the killer channel of the room, on
    which the reaper receives, and whenever it is at its [select] it waits
    [live], at its start and after every ping. *)
Theorem X14_timers_wait_the_lifetime (live : Z) (sch : list action) (s : sys) :
  exec_all sch (init live) = Some s →
  lifetime (disp (room s)) = live ∧
  Forall (λ t, lifetime (t_disp t) = live ∧ t_kill t = killer (room s) ∧
               ∀ l, t_state t = Armed l → l = live) (timers s).
Proof.
  assert (∀ s0, sys_of live s0 → exec_all sch s0 = Some s → sys_of live s) as Hall.
  { induction sch as [| a sch IH]; intros s0 H0; cbn; [by intros [= <-] |].
    destruct (exec a s0) as [s1 |] eqn:E; [| done].
    apply IH. by eapply exec_of. }
  intros Hrun. destruct (Hall (init live)) as ([Hd Hk] & Ht & _); [| done |].
  { split; [done |]. split; [constructor | done]. }
  split; [by rewrite Hd |].
  eapply Forall_impl; [exact Ht |]. intros t (Htd & Htk & Hl). cbn.
  split; [by rewrite Htd |]. split; [congruence | done].
Qed.

Lemma X14_timers_wait_the_lifetime_witness :
  ∃ s, exec_all [ALock (CallAdd "a"); AGo; AUnlock; ALock (CallGet "a" ""); ADeliver 0]
         (init 7) = Some s ∧
       Forall (λ t, lifetime (t_disp t) = 7%Z ∧ t_kill t = killer (room s) ∧
                    ∀ l, t_state t = Armed l → l = 7%Z) (timers s).
Proof.
  eexists. split; [vm_compute; reflexivity |].
  apply (X14_timers_wait_the_lifetime 7
           [ALock (CallAdd "a"); AGo; AUnlock; ALock (CallGet "a" ""); ADeliver 0]).
  vm_compute; reflexivity.
Defined.

(** ** One timer for each channel *)

Lemma timer_ids_insert (ts : list timer) (i : nat) (t t' : timer) :
  ts !! i = Some t → t_iden t' = t_iden t → t_ping t' = t_ping t →
  timer_ids (<[i := t']> ts) = timer_ids ts.
Proof.
  intros Hi Hid Hp. unfold timer_ids. rewrite list_fmap_insert.
  apply list_insert_id. rewrite list_lookup_fmap, Hi. cbn. by rewrite Hid, Hp.
Qed.

Lemma timer_select_ids (t : timer) (ev : select_case) :
  t_iden (timer_select t ev) = t_iden t ∧ t_ping (timer_select t ev) = t_ping t.
Proof. unfold timer_select. by destruct (watch_step _ _ _ _). Qed.

(** The timers that a call has to start, and the room in which it
    returns. *)
Lemma call_run_go (c : call) (r r' : Room) (u : unit) :
  outcome (call_run c r) = Some (r', u) →
  (go_list (call_run c r) = [] ∧
   next_chan r' = next_chan r ∧ ∀ iden ch, watchers r' !! iden = Some ch →
                                           watchers r !! iden = Some ch) ∨
  (∃ iden, go_list (call_run c r) = [(iden, next_chan r)] ∧ r' = added iden r).
Proof.
  unfold call_run.
  call_cases c;
    repeat match goal with
      | |- context [accessCheck ?r ?i ?k] => destruct (accessCheck r i k)
      | |- context [has ?m ?i] => destruct (has m i)
      | |- context [batch_loop ?s ?ks ?i ?vs] => destruct (batch_loop s ks i vs)
      | |- context [sessions ?r !! ?i] => destruct (sessions r !! i)
      end; cbn; try done; intros [= <-]; eauto;
    left; (split; [done |]); (split; [done |]); cbn; try done.
  all: intros i ch; rewrite lookup_delete; by case_decide.
Qed.

Lemma chans_timed_call (c : call) (r r' : Room) (u : unit) (ids : list (string * nat)) :
  outcome (call_run c r) = Some (r', u) → chans_timed r ids →
  chans_timed r' (ids ++ go_list (call_run c r)).
Proof.
  intros Ho (Hnd & Hlt & Hw).
  destruct (call_run_go c r r' u Ho) as [(-> & Hn & Hsub) | (iden & -> & ->)].
  - rewrite app_nil_r. split; [done |]. split.
    + intros i ch Hin. rewrite Hn. by eapply Hlt.
    + intros i ch Hin. by apply Hw, Hsub.
  - split; [| split].
    + rewrite fmap_app. apply NoDup_app. split; [done |]. split; [| apply NoDup_singleton].
      intros ch Hin Hch%list_elem_of_singleton. cbn in Hch.
      apply list_elem_of_fmap in Hin as ([i ch'] & Heq & Hin). cbn in Heq.
      apply Hlt in Hin. lia.
    + intros i ch [Hin | [= -> ->]%list_elem_of_singleton]%elem_of_app; cbn; [| lia].
      apply Hlt in Hin. lia.
    + intros i ch. cbn. rewrite lookup_insert. case_decide as Hi.
      * intros [= <-]. subst i. apply elem_of_app. right. by apply list_elem_of_singleton.
      * intros Hin. apply elem_of_app. left. by apply Hw.
Qed.

Lemma exec_timed (a : action) (s s' : sys) : sys_timed s → exec a s = Some s' → sys_timed s'.
Proof.
  unfold sys_timed. intros Hs. destruct a as [c | | | i | | i | i]; cbn.
  - destruct (holder s); [done |]. intros [= <-]. cbn.
    destruct (call_returns c (room s)) as (r' & e & Ho).
    assert (outcome (call_run c (room s)) = Some (r', tt)) as Ho'.
    { unfold call_run, mbind, M_bind. by rewrite outcome_bind, Ho. }
    exists r', tt. split; [done |]. by eapply chans_timed_call.
  - destruct (holder s); [done |]. destruct (reaper s) as [iden |]; [| done].
    intros [= <-]. cbn. rewrite killWatch_case_eq.
    destruct Hs as (Hnd & Hlt & Hw).
    destruct (accessCheck (room s) iden ""); cbn; eexists _, tt; (split; [done |]);
      rewrite app_nil_r; [done |].
    split; [done |]. split; [done |]. intros i ch. cbn.
    rewrite lookup_delete. case_decide; [done | apply Hw].
  - destruct (holder s) as [[w p] |]; [| done].
    destruct p as [| | | d iden ping kill k]; try done. intros [= <-]. cbn.
    destruct Hs as (r' & u & Ho & Hc). exists r', u. split; [done |].
    unfold timer_ids. rewrite fmap_app, <- app_assoc. exact Hc.
  - destruct (holder s) as [[w p] |]; [| done].
    destruct p as [| | r c k |]; try done.
    destruct (timers s !! i) as [t |] eqn:E; [| done].
    destruct (at_select t && bool_decide (t_ping t = c)); [| done].
    intros [= <-]. cbn. destruct Hs as (r' & u & Ho & Hc). exists r', u. split; [done |].
    by rewrite (timer_ids_insert _ _ t) by (done || apply timer_select_ids).
  - destruct (holder s) as [[w p] |]; [| done].
    destruct p as [r u | | |]; try done. intros [= <-]. cbn.
    destruct Hs as (r' & u' & [= <- <-] & Hc). by rewrite app_nil_r in Hc.
  - destruct (timers s !! i) as [t |] eqn:E; [| done].
    destruct (at_select t); [| done]. intros [= <-]. cbn.
    by rewrite (timer_ids_insert _ _ t) by (done || apply timer_select_ids).
  - destruct (timers s !! i) as [t |] eqn:E; [| done].
    destruct (reaper s); [done |].
    destruct (t_pending t); [done |].
    destruct (bool_decide (t_kill t = killer (room s))); [| done].
    intros [= <-]. cbn. by rewrite (timer_ids_insert _ _ t).
Qed.

(** X15: whatever the schedule from the new room on, no two timer
    goroutines listen on the same channel; and when the mutex is free,
    every session of the room has exactly one timer on its channel, a timer
    that was started for its identifier. So a ping is received by the timer
    of the [Add] that made the session, or by none. *)
Theorem X15_one_timer_for_each_channel (live : Z) (sch : list action) (s : sys) :
  exec_all sch (init live) = Some s →
  NoDup (t_ping <$> timers s) ∧
  (holder s = None →
   ∀ iden c, watchers (room s) !! iden = Some c →
     ∃ i t, timers s !! i = Some t ∧ t_ping t = c ∧ t_iden t = iden ∧
            ∀ j t', timers s !! j = Some t' → t_ping t' = c → j = i).
Proof.
  assert (∀ s0, sys_timed s0 → exec_all sch s0 = Some s → sys_timed s) as Hall.
  { induction sch as [| a sch IH]; intros s0 H0; cbn; [by intros [= <-] |].
    destruct (exec a s0) as [s1 |] eqn:E; [| done].
    apply IH. by eapply exec_timed. }
  intros Hrun. specialize (Hall (init live)) as Hs.
  assert (sys_timed (init live)) as H0.
  { split; [constructor |]. split; [by intros i c ?%elem_of_nil |].
    intros i c. cbn. by rewrite lookup_empty. }
  specialize (Hs H0 Hrun). unfold sys_timed in Hs.
  assert (NoDup (t_ping <$> timers s)) as Hnd.
  { assert (t_ping <$> timers s = (timer_ids (timers s)).*2) as ->.
    { unfold timer_ids. rewrite <- list_fmap_compose. done. }
    destruct (holder s) as [[w p] |].
    - destruct Hs as (r' & u & _ & Hnd & _). rewrite fmap_app in Hnd.
      by apply NoDup_app in Hnd as [Hnd _].
    - by destruct Hs as [Hnd _]. }
  split; [done |]. intros Hh iden c Hc. rewrite Hh in Hs.
  destruct Hs as (_ & _ & Hw). apply Hw in Hc.
  apply list_elem_of_fmap in Hc as (t & [= -> ->] & Hin).
  apply list_elem_of_lookup in Hin as [i Hi].
  exists i, t. split; [done |]. split; [done |]. split; [done |].
  intros j t' Hj Hp. eapply NoDup_lookup; [exact Hnd | |].
  - rewrite list_lookup_fmap, Hj. cbn. by rewrite Hp.
  - by rewrite list_lookup_fmap, Hi.
Qed.

Lemma X15_one_timer_for_each_channel_witness :
  ∃ s, exec_all [ALock (CallAdd "a"); AGo; AUnlock; ALock (CallDel "a"); AUnlock;
                 ALock (CallAdd "a"); AGo; AUnlock] (init 5) = Some s ∧
       NoDup (t_ping <$> timers s).
Proof.
  eexists. split; [vm_compute; reflexivity |].
  apply (X15_one_timer_for_each_channel 5
           [ALock (CallAdd "a"); AGo; AUnlock; ALock (CallDel "a"); AUnlock;
            ALock (CallAdd "a"); AGo; AUnlock]).
  vm_compute; reflexivity.
Defined.
